(** * Device-code lifecycle of hyperstack-core

  A shallow embedding of the OAuth device flow of the repository:
  - [backend/auth-device-actions.js]: the [deviceCodes] map, the periodic
    sweep, [generateCode] and the four request handlers [device-code],
    [device-approve], [device-deny] and [device-token];
  - [cli.js]: the poll loop of [login].

  The JavaScript [Map] is a [gmap] from string keys to values that are
  either grant objects or plain strings (the ["uc:"]-prefixed index entries
  hold the device code as a string).  [Date.now()], the random source, the
  authenticated caller and the database are explicit arguments; the Unicode
  case tables of the JavaScript engine are a class parameter. *)

From Stdlib Require Import ZArith Ascii String List Lia Bool.
From stdpp Require Import gmap strings list fin_maps.
Import ListNotations.

Local Open Scope Z_scope.

(* ===================================================================== *)
(** ** JavaScript string primitives used by the handlers *)
(* ===================================================================== *)

Module Js.

(** A JavaScript string is modelled by the bytes of its UTF-8 encoding: a
    code point below 128 is one byte, every other code point a sequence of
    two to four bytes of 128 and above.  Equality, concatenation, emptiness
    and the search for an ASCII character are the same on both sides.
    (A string with an unpaired surrogate has no such encoding and is left
    out.) *)

Definition byte_is (c : ascii) (n : nat) : bool := (nat_of_ascii c =? n)%nat.

(** The code points that [String.prototype.trim] strips - the WhiteSpace
    and LineTerminator productions of ECMAScript - by the length of their
    encoding.  One byte: TAB, LF, VT, FF, CR and SPACE. *)
Definition white1 (a : ascii) : bool :=
  let n := nat_of_ascii a in
  (((9 <=? n) && (n <=? 13)) || (n =? 32))%nat.

(** Two bytes: U+00A0 (C2 A0). *)
Definition white2 (a b : ascii) : bool := byte_is a 194 && byte_is b 160.

(** Three bytes: U+1680 (E1 9A 80), U+2000 to U+200A (E2 80 80 to E2 80 8A),
    U+2028, U+2029, U+202F (E2 80 A8, A9, AF), U+205F (E2 81 9F),
    U+3000 (E3 80 80) and U+FEFF (EF BB BF). *)
Definition white3 (a b c : ascii) : bool :=
  let n := nat_of_ascii c in
  (byte_is a 225 && byte_is b 154 && (n =? 128)%nat)
  || (byte_is a 226 && byte_is b 128
      && (((128 <=? n) && (n <=? 138)) || (n =? 168) || (n =? 169) || (n =? 175))%nat)
  || (byte_is a 226 && byte_is b 129 && (n =? 159)%nat)
  || (byte_is a 227 && byte_is b 128 && (n =? 128)%nat)
  || (byte_is a 239 && byte_is b 187 && (n =? 191)%nat).

(** The string after its first code point, when that one is white space. *)
Definition strip1 (s : string) : option string :=
  match s with
  | String a s1 =>
      if white1 a then Some s1
      else match s1 with
           | String b s2 =>
               if white2 a b then Some s2
               else match s2 with
                    | String c s3 => if white3 a b c then Some s3 else None
                    | EmptyString => None
                    end
           | EmptyString => None
           end
  | EmptyString => None
  end.

Fixpoint trimStart (s : string) : string :=
  match s with
  | EmptyString => EmptyString
  | String a s1 =>
      if white1 a then trimStart s1
      else match s1 with
           | String b s2 =>
               if white2 a b then trimStart s2
               else match s2 with
                    | String c s3 => if white3 a b c then trimStart s3 else s
                    | EmptyString => s
                    end
           | EmptyString => s
           end
  end.

(** A string of white space only. *)
Definition blank (s : string) : bool :=
  match trimStart s with EmptyString => true | _ => false end.

(** The bytes are kept up to the point from which only white space
    follows. *)
Fixpoint trimEnd (s : string) : string :=
  match s with
  | EmptyString => EmptyString
  | String a s1 => if blank s then EmptyString else String a (trimEnd s1)
  end.

(** [s.trim()] *)
Definition trim (s : string) : string := trimEnd (trimStart s).

Definition is_ascii_char (c : ascii) : bool := (nat_of_ascii c <? 128)%nat.

(** A string all of whose code points are below 128. *)
Fixpoint is_ascii (s : string) : bool :=
  match s with
  | EmptyString => true
  | String c s' => is_ascii_char c && is_ascii s'
  end.

Definition is_lower (c : ascii) : bool :=
  let n := nat_of_ascii c in ((97 <=? n) && (n <=? 122))%nat.

(** Upper-casing of a code point below 128. *)
Definition upper_ascii_char (c : ascii) : ascii :=
  if is_lower c then ascii_of_nat (nat_of_ascii c - 32) else c.

(** [s.toUpperCase()] for a string of code points below 128. *)
Fixpoint upper_ascii (s : string) : string :=
  match s with
  | EmptyString => EmptyString
  | String c s' => String (upper_ascii_char c) (upper_ascii s')
  end.

(** The case mapping of every other string follows the Unicode tables of
    the JavaScript engine, which are taken as given. *)
Class Engine := { upper_wide : string -> string }.

(** [s.toUpperCase()] *)
Definition toUpperCase {E : Engine} (s : string) : string :=
  if is_ascii s then upper_ascii s else upper_wide s.

(** Truthiness of a string: only the empty string is falsy. *)
Definition truthy (s : string) : bool :=
  match s with EmptyString => false | _ => true end.

(** A field of a JSON request body as the handlers use it: [text (Some s)]
    is the string [s]; [text None] is a missing field or any other falsy
    value ([null], [false], [0]), which [x || ""] replaces by the empty
    string like the empty string itself; [NotText] is a truthy value that is
    not a string (a non-zero number, [true], an object, an array). *)
Inductive BodyValue :=
| text (x : option string)
| NotText.

(** [x || ""] for a field that is a string or falsy. *)
Definition or_empty (x : option string) : string :=
  match x with Some s => s | None => EmptyString end.

(** [s[i]] appended to a string: an index out of range reads [undefined],
    which string concatenation renders as the text "undefined". *)
Definition char_at (s : string) (i : nat) : string :=
  match String.get i s with
  | Some c => String c EmptyString
  | None => "undefined"
  end.

Definition hex_digit (n : nat) : ascii :=
  match String.get n "0123456789abcdef" with
  | Some c => c
  | None => "?"%char
  end.

(** [Buffer.prototype.toString("hex")]: two lowercase digits per byte. *)
Fixpoint toHex (bytes : list nat) : string :=
  match bytes with
  | [] => EmptyString
  | b :: bs =>
      String (hex_digit (b / 16)%nat) (String (hex_digit (b mod 16)%nat) (toHex bs))
  end.

(** Strings free of one-byte white space. *)
Fixpoint no_ws (s : string) : bool :=
  match s with
  | EmptyString => true
  | String c s' => negb (white1 c) && no_ws s'
  end.

(** A string of code points below 128 that [trim] and [toUpperCase] leave
    alone. *)
Definition clean (s : string) : Prop :=
  is_ascii s = true /\ no_ws s = true /\ upper_ascii s = s.

End Js.

(** A string or missing field is written as the [option] itself. *)
#[warning="-uniform-inheritance"]
Coercion Js.text : option >-> Js.BodyValue.

(* ===================================================================== *)
(** ** Code generator *)
(* ===================================================================== *)

Module CodeGen.

(** The secure random source: an unbounded supply of bytes read in order.
    [randomBytes n] returns the next [n] bytes, each in [0, 255]. *)
Record Rng := { draw : nat -> nat; pos : nat }.

Definition randomBytes (n : nat) (r : Rng) : list nat * Rng :=
  (map (fun i => (draw r (pos r + i) mod 256)%nat) (seq 0 n),
   {| draw := draw r; pos := (pos r + n)%nat |}).

Definition chars : string := "ABCDEFGHJKLMNPQRSTUVWXYZ23456789".

(** The body of the [for] loop of [generateCode], folded over the bytes. *)
Definition append_code_char (code : string) (b : nat) : string :=
  code +:+ Js.char_at chars (b mod String.length chars)%nat.

Definition generateCode (len : nat) (r : Rng) : string * Rng :=
  let '(bytes, r') := randomBytes len r in
  (fold_left append_code_char bytes EmptyString, r').

(** The codes [device-code] draws from the random source [r]. *)
Definition new_deviceCode (r : Rng) : string := Js.toHex (randomBytes 32 r).1.

Definition new_userCode (r : Rng) : string :=
  let r1 := (randomBytes 32 r).2 in
  let '(c1, r2) := generateCode 4 r1 in
  let '(c2, _) := generateCode 4 r2 in
  c1 +:+ "-" +:+ c2.

End CodeGen.

(* ===================================================================== *)
(** ** The grant store and the request handlers *)
(* ===================================================================== *)

Module User.
(** What [authenticate(req)] yields for a logged-in caller. *)
Record t := { id : string; apiKey : string }.
End User.

Module Backend.

Inductive Status := pending | approved | denied.

Record Grant := {
  userCode : string;
  status : Status;
  userId : option string;
  apiKey : option string;
  expiresAt : Z;
  createdAt : Z
}.

(** A value held by [deviceCodes]: the grant object stored under the
    device code, or the device code string stored under ["uc:" + userCode]. *)
Inductive Value :=
| VGrant (g : Grant)
| VRef (deviceCode : string).

Abbreviation Store := (gmap string Value).

(** Rows of the database read by [device-token]. *)
Record Profile := {
  p_id : string; p_email : string; p_name : string; p_plan : string
}.
Record Workspace := { w_slug : string; w_name : string }.
Record WorkspaceMember := { wm_workspace : Workspace; wm_role : string }.
Record WorkspaceInfo := { slug : string; name : string; role : string }.

(** [prisma.user.findUnique] and [prisma.workspaceMember.findMany], keyed
    by the [userId] read from the grant (which is [null] until approval). *)
Record Db := {
  findUnique : option string -> option Profile;
  findMany : option string -> list WorkspaceMember
}.

(** Bodies handed to [json]. *)
Inductive Payload :=
| PDeviceCode (device_code user_code verification_uri
               verification_uri_complete : string) (expires_in interval : nat)
| PApproved (message user_code : string)
| PMessage (message : string)
| PErrorField (err : string)
| PToken (api_key : option string) (user : Profile)
         (workspaces : list WorkspaceInfo).

(** What a handler returns.  [error] and [json] are the helpers of the
    host [auth.js]; their calls are kept symbolic, [error msg None] being a
    call without a status argument.  [status_json] is
    [res.status(code).json(...)], [TypeError] an uncaught exception. *)
Inductive Response :=
| error (msg : string) (status : option nat)
| json (p : Payload)
| status_json (code : nat) (p : Payload)
| TypeError.

(** Truthiness of a value read from the map. *)
Definition truthy (v : Value) : bool :=
  match v with
  | VGrant _ => true
  | VRef d => Js.truthy d
  end.

(** [deviceCodes.get(k)] where [k] itself was read from the map: an
    object is never a key of the map. *)
Definition get (s : Store) (k : Value) : option Value :=
  match k with
  | VRef d => s !! d
  | VGrant _ => None
  end.

(** [now > v.expiresAt]: a string has no [expiresAt], and a comparison
    with [undefined] is false. *)
Definition expired (now : Z) (v : Value) : bool :=
  match v with
  | VGrant g => now >? expiresAt g
  | VRef _ => false
  end.

(** The callback of [setInterval]: one sweep cycle at time [now]. *)
Definition sweep (now : Z) (s : Store) : Store :=
  filter (fun kv => expired now kv.2 = false) s.

Definition set_status (st : Status) (g : Grant) : Grant :=
  {| userCode := userCode g; status := st; userId := userId g;
     apiKey := apiKey g; expiresAt := expiresAt g; createdAt := createdAt g |}.

Definition approve_grant (u : User.t) (g : Grant) : Grant :=
  {| userCode := userCode g; status := approved;
     userId := Some (User.id u); apiKey := Some (User.apiKey u);
     expiresAt := expiresAt g; createdAt := createdAt g |}.

(** The object literal stored by [device-code]. *)
Definition new_grant (userCode : string) (now now' : Z) : Grant :=
  {| userCode := userCode; status := pending; userId := None; apiKey := None;
     expiresAt := now + 600000; createdAt := now' |}.

(** ACTION device-code.  [now] and [now'] are the two readings of
    [Date.now()]. *)
Definition device_code (r : CodeGen.Rng) (now now' : Z) (s : Store)
  : Store * Response * CodeGen.Rng :=
  let '(bytes, r1) := CodeGen.randomBytes 32 r in
  let deviceCode := Js.toHex bytes in
  let '(c1, r2) := CodeGen.generateCode 4 r1 in
  let '(c2, r3) := CodeGen.generateCode 4 r2 in
  let userCode := c1 +:+ "-" +:+ c2 in
  let s1 := <[deviceCode :=
                VGrant {| userCode := userCode; status := pending;
                          userId := None; apiKey := None;
                          expiresAt := now + 600000; createdAt := now' |}]> s in
  let s2 := <["uc:" +:+ userCode := VRef deviceCode]> s1 in
  (s2,
   json (PDeviceCode deviceCode userCode
           "https://cascadeai.dev/hyperstack/device"
           ("https://cascadeai.dev/hyperstack/device?code=" +:+ userCode)
           600 5),
   r3).

(** [(req.body.user_code || "").trim().toUpperCase()] for a field that is a
    string or falsy; on any other value [.trim] is not a function, which the
    handlers below turn into the exception. *)
Definition normalize {E : Js.Engine} (user_code : option string) : string :=
  Js.toUpperCase (Js.trim (Js.or_empty user_code)).

(** ACTION device-approve.  A [user_code] that is a truthy non-string makes
    [.trim()] throw, after the caller has been authenticated. *)
Definition device_approve {E : Js.Engine} (auth : option User.t) (now : Z)
    (s : Store) (user_code : Js.BodyValue) : Store * Response :=
  match auth with
  | None => (s, error "Login required to approve device" (Some 401%nat))
  | Some user =>
      match user_code with
      | Js.NotText => (s, TypeError)
      | Js.text x =>
      let userCode := normalize x in
      if negb (Js.truthy userCode) then (s, error "user_code required" None)
      else
        match s !! ("uc:" +:+ userCode) with
        | None => (s, error "Invalid or expired code" (Some 404%nat))
        | Some deviceCode =>
            if negb (truthy deviceCode)
            then (s, error "Invalid or expired code" (Some 404%nat))
            else
              match get s deviceCode with
              | None => (s, error "Code expired" (Some 410%nat))
              | Some entry =>
                  if negb (truthy entry) || expired now entry
                  then (s, error "Code expired" (Some 410%nat))
                  else
                    match deviceCode, entry with
                    | VRef d, VGrant g =>
                        match status g with
                        | pending =>
                            (<[d := VGrant (approve_grant user g)]> s,
                             json (PApproved "Device approved" userCode))
                        | _ => (s, error "Code already used" (Some 409%nat))
                        end
                    | _, _ => (s, error "Code already used" (Some 409%nat))
                    end
              end
        end
      end
  end.

(** ACTION device-deny.  [strict] tells whether the host module runs in
    strict mode, where assigning a property on a primitive string throws;
    it only matters when the index entry leads to another string.  As in
    [device-approve], a [user_code] that is a truthy non-string makes
    [.trim()] throw. *)
Definition device_deny {E : Js.Engine} (strict : bool) (auth : option User.t)
    (s : Store) (user_code : Js.BodyValue) : Store * Response :=
  match auth with
  | None => (s, error "Login required" (Some 401%nat))
  | Some user =>
      match user_code with
      | Js.NotText => (s, TypeError)
      | Js.text x =>
      let userCode := normalize x in
      match s !! ("uc:" +:+ userCode) with
      | Some deviceCode =>
          if truthy deviceCode then
            match deviceCode, get s deviceCode with
            | VRef d, Some (VGrant g) =>
                (<[d := VGrant (set_status denied g)]> s,
                 json (PMessage "Device denied"))
            | _, Some (VRef e) =>
                if Js.truthy e && strict then (s, TypeError)
                else (s, json (PMessage "Device denied"))
            | _, _ => (s, json (PMessage "Device denied"))
            end
          else (s, json (PMessage "Device denied"))
      | None => (s, json (PMessage "Device denied"))
      end
      end
  end.

Definition workspace_info (wm : WorkspaceMember) : WorkspaceInfo :=
  {| slug := w_slug (wm_workspace wm); name := w_name (wm_workspace wm);
     role := wm_role wm |}.

(** The tail of the approved branch, after both database reads: clean up,
    then build the reply.  [approvedUser.id] throws when the row is gone,
    and it is evaluated after the two [delete] calls. *)
Definition issue (s : Store) (deviceCode : string) (entry : Grant)
    (approvedUser : option Profile) (workspaces : list WorkspaceMember)
  : Store * Response :=
  let s' := delete ("uc:" +:+ userCode entry) (delete deviceCode s) in
  match approvedUser with
  | Some u => (s', json (PToken (apiKey entry) u (map workspace_info workspaces)))
  | None => (s', TypeError)
  end.

(** ACTION device-token, run without any other handler in between.  A
    [device_code] that is a truthy non-string is no key of the map. *)
Definition device_token (db : Db) (now : Z) (s : Store)
    (device_code : Js.BodyValue) : Store * Response :=
  match device_code with
  | Js.NotText => (s, error "expired_token" (Some 410%nat))
  | Js.text x =>
  let deviceCode := Js.or_empty x in
  if negb (Js.truthy deviceCode) then (s, error "device_code required" None)
  else
    match s !! deviceCode with
    | None => (s, error "expired_token" (Some 410%nat))
    | Some entry =>
        if negb (truthy entry) then (s, error "expired_token" (Some 410%nat))
        else if expired now entry
        then (delete deviceCode s, error "expired_token" (Some 410%nat))
        else
          match entry with
          | VRef _ => (s, error "Unknown state" (Some 500%nat))
          | VGrant g =>
              match status g with
              | denied =>
                  (delete ("uc:" +:+ userCode g) (delete deviceCode s),
                   error "access_denied" (Some 403%nat))
              | pending =>
                  (s, status_json 428 (PErrorField "authorization_pending"))
              | approved =>
                  let approvedUser := findUnique db (userId g) in
                  let workspaces := findMany db (userId g) in
                  issue s deviceCode g approvedUser workspaces
              end
          end
    end
  end.

(** A run of [device-token] calls one after the other, each at its own
    time, on the same body. *)
Arguments device_approve : simpl never.
Arguments device_deny : simpl never.
Arguments device_token : simpl never.

Fixpoint redeem_all (db : Db) (times : list Z) (s : Store)
    (device_code : Js.BodyValue) : Store * list Response :=
  match times with
  | [] => (s, [])
  | t :: ts =>
      let '(s1, r) := device_token db t s device_code in
      let '(s2, rs) := redeem_all db ts s1 device_code in
      (s2, r :: rs)
  end.

(** The outcomes of the device flow as the replies that carry them. *)
Definition Expired : Response := error "expired_token" (Some 410%nat).
Definition AccessDenied : Response := error "access_denied" (Some 403%nat).
Definition AuthorizationPending : Response :=
  status_json 428 (PErrorField "authorization_pending").
Definition AlreadyUsed : Response := error "Code already used" (Some 409%nat).

(** The entry a pairing code leads to, through the index: the [entry]
    variable of [device-approve] and [device-deny] when both reads are
    truthy. *)
Definition resolve (s : Store) (userCode : string) : option Value :=
  match s !! ("uc:" +:+ userCode) with
  | Some deviceCode =>
      if truthy deviceCode then
        match get s deviceCode with
        | Some entry => if truthy entry then Some entry else None
        | None => None
        end
      else None
  | None => None
  end.

End Backend.

(* ===================================================================== *)
(** ** Interleaving of [device-token] handlers *)
(* ===================================================================== *)

(** Node runs one handler at a time and switches only at an [await].  The
  approved branch of [device-token] awaits twice, between reading the entry
  and deleting it.  A suspended handler keeps the reference [entry]; the
  fields it reads after resuming ([userId], [userCode], [apiKey]) are
  written only by [device-approve] on a pending grant, so a copy of the
  grant taken at the read stands for the reference. *)
Module Concurrent.
Import Backend.

Inductive Handler :=
| HStart (device_code : Js.BodyValue)
| HAwaitUser (deviceCode : string) (entry : Grant)
| HAwaitMembers (deviceCode : string) (entry : Grant)
                (approvedUser : option Profile)
| HDone (r : Response).

(** One uninterrupted segment of a handler: from its start, or from the
    resumption of an [await], to the next [await] or to its reply. *)
Definition token_step (db : Db) (now : Z) (s : Store) (h : Handler)
  : Store * Handler :=
  match h with
  | HStart Js.NotText => (s, HDone (error "expired_token" (Some 410%nat)))
  | HStart (Js.text x) =>
      let deviceCode := Js.or_empty x in
      if negb (Js.truthy deviceCode)
      then (s, HDone (error "device_code required" None))
      else
        match s !! deviceCode with
        | None => (s, HDone (error "expired_token" (Some 410%nat)))
        | Some entry =>
            if negb (truthy entry)
            then (s, HDone (error "expired_token" (Some 410%nat)))
            else if expired now entry
            then (delete deviceCode s, HDone (error "expired_token" (Some 410%nat)))
            else
              match entry with
              | VRef _ => (s, HDone (error "Unknown state" (Some 500%nat)))
              | VGrant g =>
                  match status g with
                  | denied =>
                      (delete ("uc:" +:+ userCode g) (delete deviceCode s),
                       HDone (error "access_denied" (Some 403%nat)))
                  | pending =>
                      (s, HDone (status_json 428 (PErrorField "authorization_pending")))
                  | approved => (s, HAwaitUser deviceCode g)
                  end
              end
        end
  | HAwaitUser deviceCode entry =>
      (s, HAwaitMembers deviceCode entry (findUnique db (userId entry)))
  | HAwaitMembers deviceCode entry approvedUser =>
      let '(s', r) :=
        issue s deviceCode entry approvedUser (findMany db (userId entry)) in
      (s', HDone r)
  | HDone r => (s, HDone r)
  end.

(** The scheduler resumes handler [i] of the pool at time [now]. *)
Definition advance (db : Db) (st : Store * list Handler) (ev : nat * Z)
  : Store * list Handler :=
  match st.2 !! ev.1 with
  | Some h =>
      let '(s', h') := token_step db ev.2 st.1 h in
      (s', <[ev.1 := h']> st.2)
  | None => st
  end.

Definition run (db : Db) (schedule : list (nat * Z))
    (st : Store * list Handler) : Store * list Handler :=
  fold_left (advance db) schedule st.

(** Every handler of a pool of [n] gets one segment, in order. *)
Definition round (n : nat) (now : Z) : list (nat * Z) :=
  map (fun i => (i, now)) (seq 0 n).

Definition replies (pool : list Handler) : list Response :=
  omap (fun h => match h with HDone r => Some r | _ => None end) pool.

(** Handler [i] gets its three segments in a row. *)
Definition alone (now : Z) (i : nat) : list (nat * Z) :=
  [(i, now); (i, now); (i, now)].

(** The handlers of a pool of [n] run to completion one after the other. *)
Definition one_by_one (n : nat) (now : Z) : list (nat * Z) :=
  flat_map (alone now) (seq 0 n).

End Concurrent.

(* ===================================================================== *)
(** ** The poll loop of [login] in cli.js *)
(* ===================================================================== *)

Module Cli.

(** The fields of the device-code reply the loop reads; a numeric field
    may be missing. *)
Record DeviceRes := {
  device_code : string;
  expires_in : option nat;
  interval : option nat
}.

(** [x || d] on a number: missing and [0] are falsy. *)
Definition or_default (x : option nat) (d : nat) : nat :=
  match x with
  | Some (S n) => S n
  | _ => d
  end.

(** [Math.ceil(a / b)] on natural numbers, [b] positive. *)
Definition ceil_div (a b : nat) : nat :=
  (if a mod b =? 0 then a / b else S (a / b))%nat.

Definition maxAttempts (res : DeviceRes) : nat :=
  ceil_div (or_default (expires_in res) 600) (or_default (interval res) 5).

(** What one pass through the [try] block meets: [fetch] or [r.json()]
    rejects, or a reply arrives with its status and [api_key] field;
    [saved] tells whether [saveCredentials] and the printing of the
    success branch run without throwing. *)
Inductive Fetched :=
| Rejected
| Replied (status : nat) (api_key : option string) (saved : bool).

Inductive Exit :=
| LoggedIn (api_key : string)
| DeviceDenied
| CodeExpired
| Unexpected
| TimedOut.

(** The line printed before the process ends (without the leading
    pictograph and line breaks). *)
Definition message (e : Exit) : string :=
  match e with
  | LoggedIn _ => "Credentials saved to: ~/.hyperstack/credentials.json"
  | DeviceDenied => "Device denied. Try again with 'hyperstack-core login'."
  | CodeExpired => "Code expired. Run 'hyperstack-core login' again."
  | Unexpected => "Unexpected response:"
  | TimedOut => "Timed out. Run 'hyperstack-core login' again."
  end.

(** [r.ok] *)
Definition ok (status : nat) : bool := ((200 <=? status) && (status <=? 299))%nat.

(** The [while (attempt < maxAttempts)] loop; [remaining] is
    [maxAttempts - attempt].  [server i] is what the [i]-th request meets.
    The result is how the login ends and the final value of [attempt]. *)
Fixpoint poll (remaining attempt : nat) (server : nat -> Fetched) : Exit * nat :=
  match remaining with
  | O => (TimedOut, attempt)
  | S remaining' =>
      let attempt := S attempt in
      match server attempt with
      | Rejected => poll remaining' attempt server
      | Replied status api_key saved =>
          if (status =? 428)%nat then poll remaining' attempt server
          else if (status =? 403)%nat then (DeviceDenied, attempt)
          else if (status =? 410)%nat then (CodeExpired, attempt)
          else
            match api_key with
            | Some key =>
                if ok status && Js.truthy key then
                  if saved then (LoggedIn key, attempt)
                  else poll remaining' attempt server
                else (Unexpected, attempt)
            | None => (Unexpected, attempt)
            end
      end
  end.

Definition login_poll (res : DeviceRes) (server : nat -> Fetched) : Exit * nat :=
  poll (maxAttempts res) 0 server.

(** A pass that leaves the loop running: a pending reply, or an exception
    caught by the [catch] of the loop body. *)
Definition transient (f : Fetched) : bool :=
  match f with
  | Rejected => true
  | Replied status api_key saved =>
      (status =? 428)%nat
      || (negb (status =? 403)%nat && negb (status =? 410)%nat && ok status
          && match api_key with Some key => Js.truthy key | None => false end
          && negb saved)
  end.

End Cli.

(* ===================================================================== *)
(** ** Shapes of strings, keys and stores *)
(* ===================================================================== *)

Module Shape.
Import Backend.

Fixpoint all_chars (p : ascii -> bool) (s : string) : bool :=
  match s with
  | EmptyString => true
  | String c s' => p c && all_chars p s'
  end.

(** An upper-case letter other than I and O, or a digit from 2 to 9. *)
Definition unambiguous (c : ascii) : bool :=
  let n := nat_of_ascii c in
  (((65 <=? n) && (n <=? 90) && negb (n =? 73) && negb (n =? 79))
   || ((50 <=? n) && (n <=? 57)))%nat.

(** A lower-case hexadecimal digit. *)
Definition is_hex (c : ascii) : bool :=
  let n := nat_of_ascii c in
  (((48 <=? n) && (n <=? 57)) || ((97 <=? n) && (n <=? 102)))%nat.

(** The byte values that [generateCode] turns into the symbol [c]. *)
Definition bytes_for (c : ascii) : list nat :=
  filter (fun b => String.eqb (CodeGen.append_code_char EmptyString b)
                              (String c EmptyString) = true)
         (seq 0 256).

(** Keys of the pairing-code index. *)
Definition is_index_key (k : string) : bool := String.prefix "uc:" k.

(** How the two kinds of entries sit in the map, and how the fields of a
    grant go together: index keys hold non-empty strings that are not
    index keys themselves, other keys hold grants; a pending grant has no
    approver, an approved one has both [userId] and [apiKey]. *)
Definition wf_entry (k : string) (v : Value) : Prop :=
  match v with
  | VRef d => is_index_key k = true /\ is_index_key d = false /\ d <> EmptyString
  | VGrant g =>
      is_index_key k = false /\
      match status g with
      | pending => userId g = None /\ apiKey g = None
      | approved => is_Some (userId g) /\ is_Some (apiKey g)
      | denied => True
      end
  end.

Definition wf (s : Store) : Prop :=
  forall k v, s !! k = Some v -> wf_entry k v.

(** The requests and timer ticks that act on the map. *)
Inductive Event :=
| EvCode (r : CodeGen.Rng) (now now' : Z)
| EvApprove (auth : option User.t) (now : Z) (user_code : Js.BodyValue)
| EvDeny (strict : bool) (auth : option User.t) (user_code : Js.BodyValue)
| EvToken (db : Db) (now : Z) (device_code : Js.BodyValue)
| EvSweep (now : Z).

Definition apply_event {E : Js.Engine} (s : Store) (e : Event) : Store :=
  match e with
  | EvCode r now now' => (device_code r now now' s).1.1
  | EvApprove auth now user_code => (device_approve auth now s user_code).1
  | EvDeny strict auth user_code => (device_deny strict auth s user_code).1
  | EvToken db now body => (device_token db now s body).1
  | EvSweep now => sweep now s
  end.

Definition exec {E : Js.Engine} (events : list Event) (s : Store) : Store :=
  fold_left apply_event events s.

(** The device codes handed out by the [device-code] requests of a run. *)
Definition created_ids (events : list Event) : list string :=
  flat_map (fun e => match e with
                     | EvCode r _ _ => [CodeGen.new_deviceCode r]
                     | _ => []
                     end) events.

End Shape.

(* ===================================================================== *)
(** ** Command-line helpers of cli.js *)
(* ===================================================================== *)

Module Commands.

(** [args.indexOf(x)], with [None] for [-1]. *)
Fixpoint indexOf (x : string) (args : list string) : option nat :=
  match args with
  | [] => None
  | a :: rest =>
      if String.eqb a x then Some 0%nat
      else match indexOf x rest with
           | Some i => Some (S i)
           | None => None
           end
  end.

(** [getFlag(name, fallback)] over the argument vector [args]. *)
Definition getFlag (args : list string) (name fallback : string) : string :=
  match indexOf ("--" +:+ name) args with
  | None => fallback
  | Some idx =>
      if (length args <=? idx + 1)%nat then fallback
      else match nth_error args (idx + 1) with
           | Some v => v
           | None => fallback
           end
  end.

(** [parts.join(sep)] *)
Fixpoint join (sep : string) (parts : list string) : string :=
  match parts with
  | [] => EmptyString
  | [p] => p
  | p :: rest => p +:+ sep +:+ join sep rest
  end.

(** The query of the [search] command:
    [args.slice(1).filter(a => !a.startsWith("--")).join(" ")]. *)
Definition search_query (args : list string) : string :=
  join " " (List.filter (fun a => negb (String.prefix "--" a)) (tl args)).

(** [s.split(sep)] for a one-character separator. *)
Fixpoint split (sep : ascii) (s : string) : list string :=
  match s with
  | EmptyString => [EmptyString]
  | String c s' =>
      if Ascii.eqb c sep then EmptyString :: split sep s'
      else match split sep s' with
           | piece :: pieces => String c piece :: pieces
           | [] => [String c EmptyString]
           end
  end.

Record Link := { target : string; relation : string }.

(** The callback mapped over the pieces of [--links]:
    [const [target, relation] = l.trim().split(":")], then
    [relation || "related"]. *)
Definition parse_link (l : string) : Link :=
  match split ":" (Js.trim l) with
  | t :: r :: _ => {| target := t; relation := if Js.truthy r then r else "related" |}
  | [t] => {| target := t; relation := "related" |}
  | [] => {| target := "undefined"; relation := "related" |}
  end.

(** The [links] field of the [store] command, from the value of [--links]. *)
Definition parse_links (flag : string) : list Link :=
  if Js.truthy flag then map parse_link (split "," flag) else [].

(** How often the character [c] occurs in [s]. *)
Fixpoint occurrences (c : ascii) (s : string) : nat :=
  match s with
  | EmptyString => 0%nat
  | String x s' => ((if Ascii.eqb x c then 1 else 0) + occurrences c s')%nat
  end.

(** Strings without colon and comma. *)
Definition plain (c : ascii) : bool :=
  negb (Ascii.eqb c ":") && negb (Ascii.eqb c ",").

(** How the loop body of the poll ends on a reply that does not leave the
    loop running. *)
Definition verdict (f : Cli.Fetched) : Cli.Exit :=
  match f with
  | Cli.Rejected => Cli.Unexpected
  | Cli.Replied status api_key saved =>
      if (status =? 403)%nat then Cli.DeviceDenied
      else if (status =? 410)%nat then Cli.CodeExpired
      else match api_key with
           | Some key =>
               if Cli.ok status && Js.truthy key then Cli.LoggedIn key
               else Cli.Unexpected
           | None => Cli.Unexpected
           end
  end.

End Commands.

(* ===================================================================== *)
(** ** The SDK client of src/client.js *)
(* ===================================================================== *)

Module Client.

Record Link := { target : string; relation : string }.

(** A card as the client handles it.  Missing string fields are empty,
    [keywords], [links] and [meta] may be absent; [meta] is a flat object. *)
Record Card := {
  slug : string;
  title : string;
  body : option string;
  cardType : option string;
  stack : option string;
  keywords : option (list string);
  links : option (list Link);
  meta : option (gmap string string)
}.

Record Options := {
  opt_apiKey : option string;
  opt_workspace : option string;
  opt_baseUrl : option string;
  opt_agentId : option string
}.

(** [process.env] as the constructor reads it. *)
Record Env := {
  HYPERSTACK_API_KEY : option string;
  HYPERSTACK_WORKSPACE : option string;
  HYPERSTACK_BASE_URL : option string
}.

Record t := {
  apiKey : string;
  workspace : string;
  baseUrl : string;
  agentId : option string
}.

Definition DEFAULT_BASE : string := "https://hyperstack-cloud.vercel.app".

(** [a || b] on strings that may be missing. *)
Definition or_else (a : option string) (b : string) : string :=
  match a with
  | Some x => if Js.truthy x then x else b
  | None => b
  end.

(** The constructor; [cred] is what [loadCredApiKey()] returns (the empty
    string when there is no usable credentials file).  [None] stands for
    the thrown "HYPERSTACK_API_KEY required" error. *)
Definition construct (opts : Options) (env : Env) (cred : string) : option t :=
  let key := or_else (opt_apiKey opts) (or_else (HYPERSTACK_API_KEY env) cred) in
  let ws := or_else (opt_workspace opts)
              (or_else (HYPERSTACK_WORKSPACE env) "default") in
  let base := or_else (opt_baseUrl opts)
                (or_else (HYPERSTACK_BASE_URL env) DEFAULT_BASE) in
  let agent := match opt_agentId opts with
               | Some a => if Js.truthy a then Some a else None
               | None => None
               end in
  if Js.truthy key
  then Some {| apiKey := key; workspace := ws; baseUrl := base; agentId := agent |}
  else None.

(** What a method does: throw, or issue one request. *)
Inductive Outcome :=
| Throw (msg : string)
| Request (method path : string) (payload : Card).

(** [arr.includes(x)] *)
Definition includes (x : string) (arr : list string) : bool :=
  existsb (String.eqb x) arr.

(** The auto-tagging of [store]. *)
Definition tag (agent : string) (card : Card) : Card :=
  let m := match meta card with Some m => m | None => ∅ end in
  let kw := match keywords card with Some k => k | None => [] end in
  let t := "agent:" +:+ agent in
  {| slug := slug card; title := title card; body := body card;
     cardType := cardType card; stack := stack card;
     keywords := Some (if includes t kw then kw else kw ++ [t]);
     links := links card;
     meta := Some (<["agentId" := agent]> m) |}.

(** [store(card)] *)
Definition store (c : t) (card : Card) : Outcome :=
  if negb (Js.truthy (slug card)) then Throw "card.slug required"
  else if negb (Js.truthy (title card)) then Throw "card.title required"
  else
    let card' := match agentId c with
                 | Some a => if Js.truthy a then tag a card else card
                 | None => card
                 end in
    Request "POST" ("/api/cards?workspace=" +:+ workspace c) card'.

(** The argument of [decide]; [now] is [new Date().toISOString()]. *)
Record Decision := {
  d_slug : string;
  d_title : string;
  d_body : option string;
  d_decidedBy : option string;
  d_affects : option (list string);
  d_blocks : option (list string);
  d_meta : option (gmap string string);
  d_keywords : option (list string)
}.

Definition decision_links (d : Decision) : list Link :=
  (match d_decidedBy d with
   | Some who => if Js.truthy who then [ {| target := who; relation := "decided" |} ] else []
   | None => []
   end)
  ++ (match d_affects d with
      | Some l => map (fun a => {| target := a; relation := "triggers" |}) l
      | None => []
      end)
  ++ (match d_blocks d with
      | Some l => map (fun b => {| target := b; relation := "blocks" |}) l
      | None => []
      end).

(** [decide(decision)] *)
Definition decide (c : t) (now : string) (d : Decision) : Outcome :=
  store c
    {| slug := d_slug d; title := d_title d; body := d_body d;
       cardType := Some "decision"; stack := Some "decisions";
       links := Some (decision_links d);
       meta := Some (<["decidedAt" := now]>
                       (match d_meta d with Some m => m | None => ∅ end));
       keywords := Some (match d_keywords d with Some k => k | None => [] end) |}.

(** The reply of the graph endpoint. *)
Record Node := { n_slug : string; n_title : option string }.
Record Edge := { e_from : string; e_to : string; e_relation : string }.
Record Graph := { nodes : option (list Node); edges : option (list Edge) }.

(** The test of the fallback filter of [blockers]:
    [c.links?.some(l => l.relation === "blocks" && l.target === slug)]. *)
Definition blocks_link (about : string) (card : Card) : bool :=
  match links card with
  | Some ls =>
      existsb (fun l => String.eqb (relation l) "blocks"
                        && String.eqb (target l) about) ls
  | None => false
  end.

Inductive Blockers :=
| FromGraph (blockers : list Node) (graph : Graph)
| Fallback (blockers : list Card)
| Rethrown (status : option nat).

(** [blockers(slug)].  [graph_reply] is what [this.graph(...)] resolves
    to, or the [status] of the error it throws (absent on a network
    failure); [search_reply] likewise for the [search] of the fallback,
    its value being the [results] field. *)
Definition blockers (about : string)
    (graph_reply : Graph + option nat)
    (search_reply : option (list Card) + option nat) : Blockers :=
  match graph_reply with
  | inl result =>
      let es := match edges result with Some es => es | None => [] end in
      let ns := match nodes result with Some ns => ns | None => [] end in
      FromGraph
        (map (fun e =>
                match List.find (fun n => String.eqb (n_slug n) (e_from e)) ns with
                | Some node => node
                | None => {| n_slug := e_from e; n_title := None |}
                end)
             (List.filter (fun e => String.eqb (e_relation e) "blocks"
                                    && String.eqb (e_to e) about) es))
        result
  | inr (Some 403%nat) =>
      match search_reply with
      | inl results =>
          Fallback (List.filter (blocks_link about)
                      (match results with Some l => l | None => [] end))
      | inr status => Rethrown status
      end
  | inr status => Rethrown status
  end.

End Client.

(* ===================================================================== *)
(** ** Concrete runs used as examples *)
(* ===================================================================== *)

Module Scenario.
Import Backend.

(** An engine for the examples: what they upper-case is ASCII text, for
    which no engine table is consulted. *)
#[global] Instance engine : Js.Engine := {| Js.upper_wide := fun s => s |}.

(** A random source, and a second one that draws another device code but
    the same pairing code. *)
Definition rng : CodeGen.Rng :=
  {| CodeGen.draw := fun i => (i * 7 + 3)%nat; CodeGen.pos := 0 |}.

Definition rng' : CodeGen.Rng :=
  {| CodeGen.draw := fun i => (if i <? 32 then i * 11 + 5 else i * 7 + 3)%nat;
     CodeGen.pos := 0 |}.

Definition alice : User.t := {| User.id := "u1"; User.apiKey := "hs_alice" |}.
Definition bob : User.t := {| User.id := "u2"; User.apiKey := "hs_bob" |}.

Definition alice_profile : Profile :=
  {| p_id := "u1"; p_email := "alice@example.org"; p_name := "Alice"; p_plan := "FREE" |}.

Definition db : Db :=
  {| findUnique := fun id =>
       match id with
       | Some i => if String.eqb i "u1" then Some alice_profile else None
       | None => None
       end;
     findMany := fun id =>
       match id with
       | Some i =>
           if String.eqb i "u1"
           then [ {| wm_workspace := {| w_slug := "default"; w_name := "Default" |};
                     wm_role := "OWNER" |} ]
           else []
       | None => []
       end |}.

(** The pairing code and device code drawn from [rng]. *)
Definition code : string := "DLT2-9GPW".
Definition device : string :=
  "030a11181f262d343b424950575e656c737a81888f969da4abb2b9c0c7ced5dc".

(** An empty map after one [device-code] request at time 0 ... *)
Definition created : Store := (device_code rng 0 0 ∅).1.1.

(** ... then approved by Alice one second later. *)
Definition approved_by_alice : Store :=
  (device_approve (Some alice) 1000 created (Some code)).1.

(** White space as a user may paste it: a no-break space (U+00A0, the bytes
    C2 A0) followed by two spaces; a tab followed by a line feed. *)
Definition nbsp : string :=
  String (ascii_of_nat 194) (String (ascii_of_nat 160) "  ").
Definition tab_nl : string :=
  String (ascii_of_nat 9) (String (ascii_of_nat 10) EmptyString).

End Scenario.

(* ===================================================================== *)
(** ** Facts about the string primitives and the generated codes *)
(* ===================================================================== *)

Module JsFacts.
Import Js.

Lemma app_cons (a : ascii) (s u : string) : String a s +:+ u = String a (s +:+ u).
Proof. reflexivity. Qed.

Lemma app_nil (u : string) : EmptyString +:+ u = u.
Proof. reflexivity. Qed.

Lemma trimStart_strip1 (s : string) :
  trimStart s = match strip1 s with Some s' => trimStart s' | None => s end.
Proof.
  destruct s as [|a [|b [|c s]]]; cbn [trimStart strip1];
    try destruct (white1 a); try destruct (white2 a b);
    try destruct (white3 a b c); reflexivity.
Qed.

Lemma strip1_shorter (w w' : string) :
  strip1 w = Some w' -> (String.length w' < String.length w)%nat.
Proof.
  destruct w as [|a [|b [|c s]]]; cbn [strip1];
    try destruct (white1 a); try destruct (white2 a b);
    try destruct (white3 a b c); try discriminate;
    intros [= <-]; cbn [String.length]; lia.
Qed.

Lemma strip1_app (w w' u : string) :
  strip1 w = Some w' -> strip1 (w +:+ u) = Some (w' +:+ u).
Proof.
  destruct w as [|a [|b [|c s]]]; rewrite ?app_cons, ?app_nil; cbn [strip1];
    try destruct (white1 a); try destruct (white2 a b);
    try destruct (white3 a b c); try discriminate;
    intros [= <-]; rewrite ?app_cons, ?app_nil; reflexivity.
Qed.

Lemma blank_strip1 (w : string) :
  blank w = true -> w = EmptyString \/ exists w', strip1 w = Some w' /\ blank w' = true.
Proof.
  unfold blank. rewrite trimStart_strip1.
  destruct (strip1 w) as [w'|] eqn:E.
  - intros H. right. now exists w'.
  - destruct w; [now left | discriminate].
Qed.

(** Leading white space does not count. *)
Lemma trimStart_blank (w u : string) :
  blank w = true -> trimStart (w +:+ u) = trimStart u.
Proof.
  remember (String.length w) as n eqn:En.
  revert w En. induction n as [n IH] using lt_wf_ind. intros w En Hw.
  destruct (blank_strip1 w Hw) as [-> | (w' & E & Hw')]; [reflexivity|].
  rewrite trimStart_strip1, (strip1_app _ _ u E).
  apply (IH (String.length w')); [|reflexivity|assumption].
  subst n. now apply strip1_shorter.
Qed.

Lemma blank_trimStart (w : string) : blank w = true -> trimStart w = EmptyString.
Proof. unfold blank. now destruct (trimStart w). Qed.

Lemma white2_ascii (a b : ascii) : is_ascii_char a = true -> white2 a b = false.
Proof.
  unfold is_ascii_char, white2, byte_is. intros H%Nat.ltb_lt.
  destruct (Nat.eqb_spec (nat_of_ascii a) 194); [lia | reflexivity].
Qed.

Lemma white3_ascii (a b c : ascii) : is_ascii_char a = true -> white3 a b c = false.
Proof.
  unfold is_ascii_char, white3, byte_is. intros H%Nat.ltb_lt.
  destruct (Nat.eqb_spec (nat_of_ascii a) 225); [lia|].
  destruct (Nat.eqb_spec (nat_of_ascii a) 226); [lia|].
  destruct (Nat.eqb_spec (nat_of_ascii a) 227); [lia|].
  destruct (Nat.eqb_spec (nat_of_ascii a) 239); [lia|].
  reflexivity.
Qed.

(** A code point below 128 that is no white space stops [trimStart]. *)
Lemma trimStart_head (a : ascii) (s : string) :
  is_ascii_char a = true -> white1 a = false ->
  trimStart (String a s) = String a s.
Proof.
  intros Ha Hw. cbn [trimStart]. rewrite Hw.
  destruct s as [|b [|c s]]; try reflexivity;
    rewrite (white2_ascii a b Ha); try reflexivity.
  now rewrite (white3_ascii a b c Ha).
Qed.

Lemma blank_head (a : ascii) (s : string) :
  is_ascii_char a = true -> white1 a = false -> blank (String a s) = false.
Proof. intros Ha Hw. unfold blank. now rewrite trimStart_head. Qed.

Lemma trimEnd_blank (w : string) : blank w = true -> trimEnd w = EmptyString.
Proof. destruct w as [|a w]; [reflexivity|]. cbn [trimEnd]. now intros ->. Qed.

(** Trailing white space after a word of non-blank code points below 128
    is dropped. *)
Lemma trimEnd_padded (t w : string) :
  is_ascii t = true -> no_ws t = true -> blank w = true ->
  trimEnd (t +:+ w) = t.
Proof.
  induction t as [|a t IH]; intros Ha Hn Hw.
  - rewrite app_nil. now apply trimEnd_blank.
  - rewrite app_cons. cbn [is_ascii no_ws] in Ha, Hn.
    apply andb_true_iff in Ha as [Ha Ht]. apply andb_true_iff in Hn as [Hn Hn'].
    apply negb_true_iff in Hn.
    cbn [trimEnd]. rewrite (blank_head a _ Ha Hn). now rewrite IH.
Qed.

Lemma trimEnd_no_ws (t : string) :
  is_ascii t = true -> no_ws t = true -> trimEnd t = t.
Proof.
  induction t as [|a t IH]; intros Ha Hn; [reflexivity|].
  cbn [is_ascii no_ws] in Ha, Hn.
  apply andb_true_iff in Ha as [Ha Ht]. apply andb_true_iff in Hn as [Hn Hn'].
  apply negb_true_iff in Hn.
  cbn [trimEnd]. rewrite (blank_head a _ Ha Hn). now rewrite IH.
Qed.

Lemma trimStart_no_ws (t u : string) :
  is_ascii t = true -> no_ws t = true -> truthy t = true ->
  trimStart (t +:+ u) = t +:+ u.
Proof.
  destruct t as [|a t]; [discriminate|]. intros Ha Hn _.
  cbn [is_ascii no_ws] in Ha, Hn.
  apply andb_true_iff in Ha as [Ha _]. apply andb_true_iff in Hn as [Hn _].
  apply negb_true_iff in Hn. rewrite app_cons. now apply trimStart_head.
Qed.

(** Padding with white space is undone by [trim]. *)
Lemma trim_padded (w1 t w2 : string) :
  blank w1 = true -> blank w2 = true -> is_ascii t = true -> no_ws t = true ->
  trim (w1 +:+ t +:+ w2) = t.
Proof.
  intros H1 H2 Ha Hn. unfold trim. rewrite (trimStart_blank _ _ H1).
  destruct t as [|c t].
  - rewrite app_nil, (blank_trimStart _ H2). reflexivity.
  - rewrite trimStart_no_ws by (assumption || reflexivity).
    now apply trimEnd_padded.
Qed.

Lemma trim_no_ws (t : string) :
  is_ascii t = true -> no_ws t = true -> trim t = t.
Proof.
  intros Ha Hn. unfold trim. destruct t as [|a t]; [reflexivity|].
  replace (trimStart (String a t)) with (String a t).
  - now apply trimEnd_no_ws.
  - cbn [is_ascii no_ws] in Ha, Hn.
    apply andb_true_iff in Ha as [Ha _]. apply andb_true_iff in Hn as [Hn _].
    apply negb_true_iff in Hn. symmetry. now apply trimStart_head.
Qed.

Lemma upper_keeps_ascii (c : ascii) :
  is_ascii_char (upper_ascii_char c) = is_ascii_char c.
Proof. destruct c as [[] [] [] [] [] [] [] []]; reflexivity. Qed.

Lemma upper_keeps_space (c : ascii) : white1 (upper_ascii_char c) = white1 c.
Proof. destruct c as [[] [] [] [] [] [] [] []]; reflexivity. Qed.

Lemma is_ascii_upper (s : string) : is_ascii (upper_ascii s) = is_ascii s.
Proof.
  induction s as [|c s IH]; cbn [upper_ascii is_ascii]; [reflexivity|].
  now rewrite upper_keeps_ascii, IH.
Qed.

Lemma no_ws_upper (s : string) : no_ws (upper_ascii s) = no_ws s.
Proof.
  induction s as [|c s IH]; cbn [upper_ascii no_ws]; [reflexivity|].
  now rewrite upper_keeps_space, IH.
Qed.

Lemma upper_app (a b : string) :
  upper_ascii (a +:+ b) = upper_ascii a +:+ upper_ascii b.
Proof.
  induction a as [|c a IH]; [reflexivity|].
  rewrite app_cons. cbn [upper_ascii]. now rewrite IH.
Qed.

Lemma is_ascii_app (a b : string) : is_ascii (a +:+ b) = is_ascii a && is_ascii b.
Proof.
  induction a as [|c a IH]; [reflexivity|].
  rewrite app_cons. cbn [is_ascii]. rewrite IH. now rewrite andb_assoc.
Qed.

Lemma no_ws_app (a b : string) : no_ws (a +:+ b) = no_ws a && no_ws b.
Proof.
  induction a as [|c a IH]; [reflexivity|].
  rewrite app_cons. cbn [no_ws]. rewrite IH. now rewrite andb_assoc.
Qed.

(** On code points below 128 no engine table is consulted. *)
Lemma toUpperCase_ascii {E : Engine} (s : string) :
  is_ascii s = true -> toUpperCase s = upper_ascii s.
Proof. unfold toUpperCase. now intros ->. Qed.

Lemma truthy_app_r (a b : string) : truthy b = true -> truthy (a +:+ b) = true.
Proof. destruct a; [now rewrite app_nil | reflexivity]. Qed.

End JsFacts.

Module CodeGenFacts.
Import Js JsFacts CodeGen.

Lemma clean_empty : clean EmptyString.
Proof. repeat split. Qed.

Lemma clean_app (a b : string) : clean a -> clean b -> clean (a +:+ b).
Proof.
  intros (Ha0 & Ha1 & Ha2) (Hb0 & Hb1 & Hb2). repeat split.
  - now rewrite is_ascii_app, Ha0, Hb0.
  - now rewrite no_ws_app, Ha1, Hb1.
  - now rewrite upper_app, Ha2, Hb2.
Qed.

Lemma clean_alphabet (i : nat) :
  (i < 32)%nat -> clean (char_at chars i).
Proof.
  intros Hi.
  do 32 (destruct i as [|i]; [repeat split|]).
  lia.
Qed.

Lemma clean_append_code_char (code : string) (b : nat) :
  clean code -> clean (append_code_char code b).
Proof.
  intros Hc. unfold append_code_char. apply clean_app; [assumption|].
  apply clean_alphabet.
  change (String.length chars) with 32%nat.
  apply Nat.mod_upper_bound. discriminate.
Qed.

Lemma clean_fold (bytes : list nat) (code : string) :
  clean code -> clean (fold_left append_code_char bytes code).
Proof.
  revert code. induction bytes as [|b bs IH]; simpl; intros code Hc.
  - assumption.
  - apply IH. now apply clean_append_code_char.
Qed.

Lemma clean_generateCode (len : nat) (r : Rng) : clean (generateCode len r).1.
Proof. unfold generateCode. simpl. apply clean_fold, clean_empty. Qed.

Lemma clean_new_userCode (r : Rng) : clean (new_userCode r).
Proof.
  unfold new_userCode.
  destruct (generateCode 4 (randomBytes 32 r).2) as [c1 r2] eqn:E1.
  destruct (generateCode 4 r2) as [c2 r3] eqn:E2.
  apply clean_app; [|apply clean_app].
  - replace c1 with (generateCode 4 (randomBytes 32 r).2).1 by now rewrite E1.
    apply clean_generateCode.
  - repeat split.
  - replace c2 with (generateCode 4 r2).1 by now rewrite E2.
    apply clean_generateCode.
Qed.

Lemma truthy_new_userCode (r : Rng) : truthy (new_userCode r) = true.
Proof.
  unfold new_userCode.
  destruct (generateCode 4 _) as [c1 r2].
  destruct (generateCode 4 r2) as [c2 r3].
  apply truthy_app_r. reflexivity.
Qed.

Lemma hex_digit_not_u (n : nat) : hex_digit n <> "u"%char.
Proof.
  do 16 (destruct n as [|n]; [vm_compute; discriminate|]).
  vm_compute. discriminate.
Qed.

Lemma new_deviceCode_head (r : Rng) :
  exists c rest, new_deviceCode r = String c rest /\ c <> "u"%char.
Proof.
  unfold new_deviceCode, randomBytes. simpl.
  eexists _, _. split; [reflexivity|]. apply hex_digit_not_u.
Qed.

Lemma new_deviceCode_truthy (r : Rng) : truthy (new_deviceCode r) = true.
Proof. destruct (new_deviceCode_head r) as (c & rest & -> & _). reflexivity. Qed.

Lemma new_deviceCode_not_index (r : Rng) (code : string) :
  new_deviceCode r <> "uc:" +:+ code.
Proof.
  destruct (new_deviceCode_head r) as (c & rest & -> & Hc).
  simpl. intros [= E _]. now apply Hc.
Qed.

End CodeGenFacts.

(* ===================================================================== *)
(** ** Facts about the store and the handlers *)
(* ===================================================================== *)

Module BackendFacts.
Import Js JsFacts CodeGen CodeGenFacts Backend.

Section Engine.
Context {Eng : Engine}.

Lemma normalize_clean (code : string) : clean code -> normalize (Some code) = code.
Proof.
  intros (Ha & Hws & Hup). unfold normalize. cbn [or_empty].
  rewrite (trim_no_ws _ Ha Hws). now rewrite toUpperCase_ascii.
Qed.

Lemma normalize_new_userCode (r : Rng) :
  normalize (Some (new_userCode r)) = new_userCode r.
Proof. apply normalize_clean, clean_new_userCode. Qed.

Lemma truthy_ne (d : string) : d <> EmptyString <-> Js.truthy d = true.
Proof. destruct d; simpl; split; congruence. Qed.

Lemma not_expired_yet (now e : Z) : now <= e -> (now >? e) = false.
Proof. intros H. rewrite Z.gtb_ltb. apply Z.ltb_ge. lia. Qed.

Lemma expired_already (now e : Z) : e < now -> (now >? e) = true.
Proof. intros H. rewrite Z.gtb_ltb. apply Z.ltb_lt. lia. Qed.

(** [device-code] spelled out on the codes it draws. *)
Lemma device_code_eq (r : Rng) (now now' : Z) (s : Store) :
  (device_code r now now' s).1 =
  (<["uc:" +:+ new_userCode r := VRef (new_deviceCode r)]>
     (<[new_deviceCode r := VGrant (new_grant (new_userCode r) now now')]> s),
   json (PDeviceCode (new_deviceCode r) (new_userCode r)
           "https://cascadeai.dev/hyperstack/device"
           ("https://cascadeai.dev/hyperstack/device?code=" +:+ new_userCode r)
           600 5)).
Proof.
  unfold device_code, new_userCode, new_deviceCode.
  destruct (randomBytes 32 r) as [bytes r1]. simpl.
  destruct (generateCode 4 r1) as [c1 r2].
  destruct (generateCode 4 r2) as [c2 r3]. reflexivity.
Qed.

Lemma sweep_lookup (now : Z) (s : Store) (k : string) :
  sweep now s !! k =
  match s !! k with
  | Some v => if expired now v then None else Some v
  | None => None
  end.
Proof.
  unfold sweep. destruct (s !! k) as [v|] eqn:E.
  - destruct (expired now v) eqn:Ex.
    + apply map_lookup_filter_None. right. intros v' Hv'. simpl.
      rewrite E in Hv'. injection Hv' as <-. congruence.
    + apply map_lookup_filter_Some. split; assumption.
  - apply map_lookup_filter_None. now left.
Qed.

Lemma device_token_not_found (db : Db) (now : Z) (s : Store) (d : string) :
  d <> EmptyString -> s !! d = None ->
  device_token db now s (Some d) = (s, Expired).
Proof.
  intros Hd Hs. unfold device_token. simpl.
  apply truthy_ne in Hd. rewrite Hd, Hs. reflexivity.
Qed.

Lemma redeem_all_not_found (db : Db) (times : list Z) (s : Store) (d : string) :
  d <> EmptyString -> s !! d = None ->
  redeem_all db times s (Some d) = (s, map (fun _ => Expired) times).
Proof.
  intros Hd Hs. induction times as [|t ts IH]; cbn [redeem_all map]; [reflexivity|].
  rewrite (device_token_not_found db t s d Hd Hs), IH. reflexivity.
Qed.

(** A key that holds a grant is not the index key of that grant's code
    when the index key holds a string. *)
Lemma grant_key_not_index (s : Store) (d k : string) (g : Grant) (v : string) :
  s !! d = Some (VGrant g) -> s !! k = Some (VRef v) -> d <> k.
Proof. intros Hd Hk ->. congruence. Qed.

Lemma device_approve_pending (u : User.t) (now : Z) (s : Store)
    (code : option string) (d : string) (g : Grant) :
  Js.truthy (normalize code) = true ->
  s !! ("uc:" +:+ normalize code) = Some (VRef d) ->
  d <> EmptyString ->
  s !! d = Some (VGrant g) ->
  now <= expiresAt g ->
  status g = pending ->
  device_approve (Some u) now s code =
  (<[d := VGrant (approve_grant u g)]> s,
   json (PApproved "Device approved" (normalize code))).
Proof.
  intros Hc Hi Hd Hg Ht Hp. unfold device_approve.
  rewrite Hc, Hi. simpl. apply truthy_ne in Hd. rewrite Hd. simpl.
  rewrite Hg. simpl.
  rewrite (not_expired_yet _ _ Ht).
  rewrite Hp. reflexivity.
Qed.

Lemma device_approve_used (u : User.t) (now : Z) (s : Store)
    (code : option string) (d : string) (g : Grant) :
  Js.truthy (normalize code) = true ->
  s !! ("uc:" +:+ normalize code) = Some (VRef d) ->
  d <> EmptyString ->
  s !! d = Some (VGrant g) ->
  now <= expiresAt g ->
  status g <> pending ->
  device_approve (Some u) now s code = (s, AlreadyUsed).
Proof.
  intros Hc Hi Hd Hg Ht Hp. unfold device_approve.
  rewrite Hc, Hi. simpl. apply truthy_ne in Hd. rewrite Hd. simpl.
  rewrite Hg. simpl.
  rewrite (not_expired_yet _ _ Ht).
  destruct (status g); [congruence | reflexivity | reflexivity].
Qed.

Lemma device_token_approved (db : Db) (now : Z) (s : Store) (d : string)
    (g : Grant) (p : Profile) :
  d <> EmptyString ->
  s !! d = Some (VGrant g) ->
  now <= expiresAt g ->
  status g = approved ->
  findUnique db (userId g) = Some p ->
  device_token db now s (Some d) =
  (delete ("uc:" +:+ userCode g) (delete d s),
   json (PToken (apiKey g) p (map workspace_info (findMany db (userId g))))).
Proof.
  intros Hd Hg Ht Hst Hp. unfold device_token. simpl.
  apply truthy_ne in Hd. rewrite Hd, Hg. simpl.
  rewrite (not_expired_yet _ _ Ht).
  rewrite Hst. unfold issue. rewrite Hp. reflexivity.
Qed.

End Engine.

End BackendFacts.

(* ===================================================================== *)
(** ** The claims about the grant store and the state machine *)
(* ===================================================================== *)

Import Js JsFacts CodeGen CodeGenFacts Backend BackendFacts.

(** C1 (the code departs from the claim).  Removing an expired grant leaves
    its index entry behind: after one sweep cycle, and likewise after the
    expiry branch of [device-token], the device code no longer resolves but
    ["uc:" + userCode] still maps to it. *)
Theorem expiry_leaves_index_entry (db : Db) (now : Z) (s : Store)
    (d : string) (g : Grant) :
  d <> EmptyString ->
  s !! d = Some (VGrant g) ->
  s !! ("uc:" +:+ userCode g) = Some (VRef d) ->
  expiresAt g < now ->
  (sweep now s !! d = None /\
   sweep now s !! ("uc:" +:+ userCode g) = Some (VRef d)) /\
  ((device_token db now s (Some d)).2 = Expired /\
   (device_token db now s (Some d)).1 !! d = None /\
   (device_token db now s (Some d)).1 !! ("uc:" +:+ userCode g) = Some (VRef d)).
Proof.
  intros Hd Hg Hi Ht.
  pose proof (grant_key_not_index s d _ g d Hg Hi) as Hne.
  split.
  - rewrite !sweep_lookup, Hg, Hi. simpl.
    now rewrite (expired_already _ _ Ht).
  - unfold device_token. simpl. apply truthy_ne in Hd. rewrite Hd, Hg. simpl.
    rewrite (expired_already _ _ Ht). simpl.
    rewrite lookup_delete_eq, lookup_delete_ne by assumption. auto.
Qed.

Lemma expiry_leaves_index_entry_witness :
  Scenario.device <> EmptyString /\
  Scenario.created !! Scenario.device
    = Some (VGrant (new_grant Scenario.code 0 0)) /\
  Scenario.created !! ("uc:" +:+ Scenario.code) = Some (VRef Scenario.device) /\
  (sweep 600001 Scenario.created !! Scenario.device = None /\
   sweep 600001 Scenario.created !! ("uc:" +:+ Scenario.code)
     = Some (VRef Scenario.device)).
Proof.
  assert (H1 : Scenario.device <> EmptyString) by discriminate.
  assert (H2 : Scenario.created !! Scenario.device
               = Some (VGrant (new_grant Scenario.code 0 0)))
    by (vm_compute; reflexivity).
  assert (H3 : Scenario.created !! ("uc:" +:+ Scenario.code)
               = Some (VRef Scenario.device))
    by (vm_compute; reflexivity).
  assert (H4 : expiresAt (new_grant Scenario.code 0 0) < 600001) by reflexivity.
  split; [exact H1 | split; [exact H2 | split; [exact H3|]]].
  exact (proj1 (expiry_leaves_index_entry Scenario.db 600001 Scenario.created
                  Scenario.device (new_grant Scenario.code 0 0) H1 H2 H3 H4)).
Defined.

(** C2 (counterexample).  The claim as stated - a create whose generated
    device code or pairing code is in use fails and leaves the store alone -
    is false: with the pairing code of [Scenario.created] drawn again,
    [device-code] answers with the success reply and redirects the index
    entry to the new device code. *)
Lemma device_code_collision_overwrites :
  ~ (forall (r : Rng) (now now' : Z) (s : Store),
        is_Some (s !! new_deviceCode r) \/
        is_Some (s !! ("uc:" +:+ new_userCode r)) ->
        (exists msg st, (device_code r now now' s).1.2 = error msg st) /\
        (device_code r now now' s).1.1 = s).
Proof.
  intros H.
  destruct (H Scenario.rng' 5000 5000 Scenario.created) as [_ Hs].
  - right. exists (VRef Scenario.device). vm_compute. reflexivity.
  - apply (f_equal (fun m : Store => m !! ("uc:" +:+ Scenario.code))) in Hs.
    vm_compute in Hs. discriminate.
Qed.

(** C2 (amended).  [device-code] never fails and never checks for a
    collision: whatever the store holds, it answers with the success reply
    for the codes it drew, stores the new pending grant under the device code
    and the device code under ["uc:" + userCode], replacing what was there,
    and leaves every other key as it was. *)
Theorem device_code_always_stores (r : Rng) (now now' : Z) (s : Store) :
  (device_code r now now' s).1.2 =
    json (PDeviceCode (new_deviceCode r) (new_userCode r)
            "https://cascadeai.dev/hyperstack/device"
            ("https://cascadeai.dev/hyperstack/device?code=" +:+ new_userCode r)
            600 5) /\
  (device_code r now now' s).1.1 !! new_deviceCode r
    = Some (VGrant (new_grant (new_userCode r) now now')) /\
  (device_code r now now' s).1.1 !! ("uc:" +:+ new_userCode r)
    = Some (VRef (new_deviceCode r)) /\
  (forall k, k <> new_deviceCode r -> k <> "uc:" +:+ new_userCode r ->
             (device_code r now now' s).1.1 !! k = s !! k).
Proof.
  rewrite device_code_eq. simpl. repeat split.
  - rewrite lookup_insert_ne by (apply not_eq_sym, new_deviceCode_not_index).
    apply lookup_insert_eq.
  - apply lookup_insert_eq.
  - intros k Hk1 Hk2. rewrite !lookup_insert_ne by congruence. reflexivity.
Qed.

(** C3 (the code departs from the claim).  [device-deny] has no pending
    guard: on a grant that is already approved it sets the status to
    [denied], and the next [device-token] answers [access_denied]. *)
Theorem deny_overwrites_approved {Eng : Engine} (strict : bool) (u : User.t) (db : Db)
    (now : Z) (s : Store) (code : option string) (d : string) (g : Grant) :
  s !! ("uc:" +:+ normalize code) = Some (VRef d) ->
  d <> EmptyString ->
  s !! d = Some (VGrant g) ->
  status g = approved ->
  now <= expiresAt g ->
  device_deny strict (Some u) s code =
    (<[d := VGrant (set_status denied g)]> s, json (PMessage "Device denied")) /\
  (device_token db now (device_deny strict (Some u) s code).1 (Some d)).2
    = AccessDenied.
Proof.
  intros Hi Hd Hg Hst Ht.
  assert (E : device_deny strict (Some u) s code =
              (<[d := VGrant (set_status denied g)]> s,
               json (PMessage "Device denied"))).
  { unfold device_deny. rewrite Hi. simpl.
    apply truthy_ne in Hd. rewrite Hd, Hg. reflexivity. }
  split; [exact E|]. rewrite E. simpl.
  unfold device_token. simpl. apply truthy_ne in Hd. rewrite Hd.
  rewrite lookup_insert_eq. simpl.
  rewrite (not_expired_yet _ _ Ht). reflexivity.
Qed.

Lemma deny_overwrites_approved_witness :
  Scenario.approved_by_alice !! ("uc:" +:+ normalize (Some " dlt2-9gpw "))
    = Some (VRef Scenario.device) /\
  Scenario.approved_by_alice !! Scenario.device
    = Some (VGrant (approve_grant Scenario.alice (new_grant Scenario.code 0 0))) /\
  (device_deny true (Some Scenario.bob) Scenario.approved_by_alice
     (Some " dlt2-9gpw ")).1 !! Scenario.device
    = Some (VGrant (set_status denied
                      (approve_grant Scenario.alice (new_grant Scenario.code 0 0)))) /\
  (device_token Scenario.db 2000
     (device_deny true (Some Scenario.bob) Scenario.approved_by_alice
        (Some " dlt2-9gpw ")).1
     (Some Scenario.device)).2 = AccessDenied.
Proof.
  assert (H1 : Scenario.approved_by_alice
                 !! ("uc:" +:+ normalize (Some " dlt2-9gpw "))
               = Some (VRef Scenario.device)) by (vm_compute; reflexivity).
  assert (H2 : Scenario.device <> EmptyString) by discriminate.
  assert (H3 : Scenario.approved_by_alice !! Scenario.device
               = Some (VGrant (approve_grant Scenario.alice
                                 (new_grant Scenario.code 0 0))))
    by (vm_compute; reflexivity).
  assert (H4 : status (approve_grant Scenario.alice (new_grant Scenario.code 0 0))
               = approved) by reflexivity.
  assert (H5 : 2000 <= expiresAt (approve_grant Scenario.alice
                                    (new_grant Scenario.code 0 0)))
    by (vm_compute; discriminate).
  destruct (deny_overwrites_approved true Scenario.bob Scenario.db 2000
              Scenario.approved_by_alice (Some " dlt2-9gpw ")
              Scenario.device _ H1 H2 H3 H4 H5) as [E1 E2].
  split; [exact H1 | split; [exact H3 | split; [|exact E2]]].
  rewrite E1. simpl. apply lookup_insert_eq.
Defined.

(** What a successful approval tells about the store it ran on. *)
Lemma device_approve_success_inv {Eng : Engine} (u : User.t) (now : Z) (s s1 : Store)
    (code : option string) (p : Payload) :
  device_approve (Some u) now s code = (s1, json p) ->
  exists d g,
    Js.truthy (normalize code) = true /\
    s !! ("uc:" +:+ normalize code) = Some (VRef d) /\
    d <> EmptyString /\
    s !! d = Some (VGrant g) /\
    now <= expiresAt g /\
    status g = pending /\
    s1 = <[d := VGrant (approve_grant u g)]> s /\
    p = PApproved "Device approved" (normalize code).
Proof.
  unfold device_approve.
  destruct (Js.truthy (normalize code)) eqn:Hc; simpl; [|discriminate].
  destruct (s !! ("uc:" +:+ normalize code)) as [dc|] eqn:Hi; [|discriminate].
  destruct (Backend.truthy dc) eqn:Hdc; simpl; [|discriminate].
  destruct (get s dc) as [entry|] eqn:Hg; [|discriminate].
  destruct (Backend.truthy entry) eqn:He; simpl; [|discriminate].
  destruct (expired now entry) eqn:Hx; [discriminate|].
  destruct dc as [?|d]; [discriminate|].
  destruct entry as [g|?]; [|discriminate].
  destruct (status g) eqn:Hst; try discriminate.
  intros [= <- <-]. exists d, g. simpl in *.
  repeat split; try assumption.
  - now apply truthy_ne.
  - rewrite Z.gtb_ltb in Hx. apply Z.ltb_ge in Hx. lia.
Qed.

(** C4.  A grant created by [device-code], approved through its pairing
    code and redeemed through its device code, all before it expires and with
    the approver's profile on record: the first [device-token] call answers
    with the approver's API key, profile and workspaces, removes both
    entries, and every later call on the same device code answers
    [expired_token] with status 410. *)
Theorem redeem_issues_once {Eng : Engine} (db : Db) (r : Rng) (now now' t1 t2 : Z)
    (s0 : Store) (u : User.t) (p : Profile) (later : list Z) :
  t1 <= now + 600000 ->
  t2 <= now + 600000 ->
  findUnique db (Some (User.id u)) = Some p ->
  let s1 := (device_code r now now' s0).1.1 in
  let '(s2, approval) := device_approve (Some u) t1 s1 (Some (new_userCode r)) in
  let '(s3, first) := device_token db t2 s2 (Some (new_deviceCode r)) in
  let '(s4, rest) := redeem_all db later s3 (Some (new_deviceCode r)) in
  approval = json (PApproved "Device approved" (new_userCode r)) /\
  first = json (PToken (Some (User.apiKey u)) p
                  (map workspace_info (findMany db (Some (User.id u))))) /\
  s3 !! new_deviceCode r = None /\
  s3 !! ("uc:" +:+ new_userCode r) = None /\
  length rest = length later /\
  Forall (fun reply => reply = Expired) rest.
Proof.
  intros Ht1 Ht2 Hp s1. subst s1. rewrite device_code_eq. cbn [fst snd].
  set (d := new_deviceCode r). set (uc := new_userCode r).
  set (g := new_grant uc now now').
  set (s1 := <["uc:" +:+ uc := VRef d]> (<[d := VGrant g]> s0)).
  assert (Hne : d <> "uc:" +:+ uc) by apply new_deviceCode_not_index.
  assert (Hd : d <> EmptyString)
    by (apply truthy_ne, new_deviceCode_truthy).
  assert (Hi : s1 !! ("uc:" +:+ normalize (Some uc)) = Some (VRef d)).
  { unfold uc. rewrite normalize_new_userCode. apply lookup_insert_eq. }
  assert (Hg : s1 !! d = Some (VGrant g)).
  { unfold s1. rewrite lookup_insert_ne by congruence. apply lookup_insert_eq. }
  rewrite (device_approve_pending u t1 s1 (Some uc) d g); try assumption;
    [| unfold uc; rewrite normalize_new_userCode; apply truthy_new_userCode
     | reflexivity ].
  rewrite (device_token_approved db t2 _ d (approve_grant u g) p);
    try assumption; try reflexivity; [| apply lookup_insert_eq].
  simpl.
  set (s3 := delete ("uc:" +:+ uc) (delete d (<[d := VGrant (approve_grant u g)]> s1))).
  assert (H3 : s3 !! d = None).
  { unfold s3. rewrite lookup_delete_ne by congruence. apply lookup_delete_eq. }
  rewrite (redeem_all_not_found db later s3 d Hd H3).
  unfold uc at 1. rewrite normalize_new_userCode. fold uc.
  repeat split; try assumption.
  - apply lookup_delete_eq.
  - apply length_map.
  - clear. induction later as [|t ts IH]; simpl; constructor; auto.
Qed.

Lemma redeem_issues_once_witness :
  let s1 := Scenario.created in
  let '(s2, approval) :=
    device_approve (Some Scenario.alice) 1000 s1 (Some Scenario.code) in
  let '(s3, first) := device_token Scenario.db 7000 s2 (Some Scenario.device) in
  let '(s4, rest) :=
    redeem_all Scenario.db [12000; 17000; 700000] s3 (Some Scenario.device) in
  first = json (PToken (Some "hs_alice") Scenario.alice_profile
                  [ {| slug := "default"; name := "Default"; role := "OWNER" |} ]) /\
  rest = [Expired; Expired; Expired].
Proof.
  assert (H1 : 1000 <= 0 + 600000) by lia.
  assert (H2 : 7000 <= 0 + 600000) by lia.
  assert (H3 : findUnique Scenario.db (Some (User.id Scenario.alice))
               = Some Scenario.alice_profile) by reflexivity.
  pose proof (redeem_issues_once Scenario.db Scenario.rng 0 0 1000 7000 ∅
                Scenario.alice Scenario.alice_profile [12000; 17000; 700000]
                H1 H2 H3) as W.
  change (new_userCode Scenario.rng) with Scenario.code in W.
  change (new_deviceCode Scenario.rng) with Scenario.device in W.
  change ((device_code Scenario.rng 0 0 ∅).1.1) with Scenario.created in W.
  cbv zeta in W |- *.
  destruct (device_approve (Some Scenario.alice) 1000 Scenario.created
              (Some Scenario.code)) as [s2 approval].
  destruct (device_token Scenario.db 7000 s2 (Some Scenario.device)) as [s3 first].
  destruct (redeem_all Scenario.db [12000; 17000; 700000] s3
              (Some Scenario.device)) as [s4 rest].
  destruct W as (_ & Hfirst & _ & _ & Hlen & Hall).
  split; [exact Hfirst|].
  destruct rest as [|a [|b [|c [|? ?]]]]; try discriminate.
  inversion Hall as [|? ? -> Hall1]; subst.
  inversion Hall1 as [|? ? -> Hall2]; subst.
  inversion Hall2 as [|? ? -> _]; subst. reflexivity.
Defined.

(** C7.  After a successful [device-approve], a second [device-approve] on
    the same pairing code (however it is typed, by whichever user) made
    before the grant expires answers "Code already used" with status 409 and
    leaves the store as it was: the grant keeps the [userId] and [apiKey] of
    the first approver. *)
Theorem second_approve_already_used {Eng : Engine} (u1 u2 : User.t) (t1 t2 : Z) (s s1 : Store)
    (code code' : option string) (c : string) :
  device_approve (Some u1) t1 s code = (s1, json (PApproved "Device approved" c)) ->
  normalize code' = c ->
  (forall g, resolve s1 c = Some (VGrant g) -> t2 <= expiresAt g) ->
  device_approve (Some u2) t2 s1 code' = (s1, AlreadyUsed) /\
  exists g, resolve s1 c = Some (VGrant g) /\
            status g = approved /\
            userId g = Some (User.id u1) /\
            apiKey g = Some (User.apiKey u1).
Proof.
  intros H1 Hc Ht.
  apply device_approve_success_inv in H1
    as (d & g & Hcode & Hi & Hd & Hg & Hexp & Hst & -> & [= ->]).
  pose proof (grant_key_not_index s d _ g d Hg Hi) as Hne.
  set (s1 := <[d := VGrant (approve_grant u1 g)]> s) in *.
  assert (Hi1 : s1 !! ("uc:" +:+ normalize code) = Some (VRef d)).
  { unfold s1. rewrite lookup_insert_ne by assumption. exact Hi. }
  assert (Hg1 : s1 !! d = Some (VGrant (approve_grant u1 g)))
    by apply lookup_insert_eq.
  assert (Hr : resolve s1 (normalize code) = Some (VGrant (approve_grant u1 g))).
  { unfold resolve. rewrite Hi1. simpl.
    apply truthy_ne in Hd. rewrite Hd, Hg1. reflexivity. }
  split.
  - apply (device_approve_used u2 t2 s1 code' d (approve_grant u1 g)).
    + now rewrite Hc.
    + now rewrite Hc.
    + exact Hd.
    + exact Hg1.
    + apply Ht. exact Hr.
    + discriminate.
  - exists (approve_grant u1 g). repeat split. exact Hr.
Qed.

Lemma second_approve_already_used_witness :
  device_approve (Some Scenario.alice) 1000 Scenario.created (Some Scenario.code)
    = (Scenario.approved_by_alice, json (PApproved "Device approved" Scenario.code)) /\
  device_approve (Some Scenario.bob) 2000 Scenario.approved_by_alice
    (Some "dlt2-9gpw") = (Scenario.approved_by_alice, AlreadyUsed) /\
  exists g, resolve Scenario.approved_by_alice Scenario.code = Some (VGrant g) /\
            status g = approved /\
            userId g = Some "u1" /\
            apiKey g = Some "hs_alice".
Proof.
  assert (H1 : device_approve (Some Scenario.alice) 1000 Scenario.created
                 (Some Scenario.code)
               = (Scenario.approved_by_alice,
                  json (PApproved "Device approved" Scenario.code)))
    by (vm_compute; reflexivity).
  assert (H2 : normalize (Some "dlt2-9gpw") = Scenario.code) by reflexivity.
  assert (H3 : forall g, resolve Scenario.approved_by_alice Scenario.code
                         = Some (VGrant g) -> 2000 <= expiresAt g).
  { intros g Hg. vm_compute in Hg. injection Hg as <-. vm_compute. discriminate. }
  split; [exact H1|].
  exact (second_approve_already_used Scenario.alice Scenario.bob 1000 2000
           Scenario.created Scenario.approved_by_alice (Some Scenario.code)
           (Some "dlt2-9gpw") Scenario.code H1 H2 H3).
Defined.




(** What [normalize] makes of a generated code typed in either case with
    white space around it. *)
Lemma normalize_padded {Eng : Engine} (r : Rng) (w1 w2 typed : string) :
  blank w1 = true ->
  blank w2 = true ->
  upper_ascii typed = new_userCode r ->
  normalize (Some (w1 +:+ typed +:+ w2)) = new_userCode r.
Proof.
  intros H1 H2 Hup.
  destruct (clean_new_userCode r) as (Ha & Hn & _).
  rewrite <- Hup, is_ascii_upper in Ha. rewrite <- Hup, no_ws_upper in Hn.
  unfold normalize. cbn [or_empty].
  rewrite (trim_padded _ _ _ H1 H2 Ha Hn).
  now rewrite (toUpperCase_ascii _ Ha).
Qed.

(** C10.  A generated pairing code typed with letters in either case and
    with white space around it (any of the code points [trim] strips) is
    normalised to the generated code itself, the key looked up under
    ["uc:"]: it resolves to the grant of the generated code, which
    [device-deny] marks denied and [device-approve], while the grant is
    pending and has not expired, hands to the approving user. *)
Theorem typed_code_is_normalized {Eng : Engine} (r : Rng) (w1 w2 typed : string)
    (strict : bool) (u : User.t) (t : Z) (s : Store) (d : string) (g : Grant) :
  blank w1 = true ->
  blank w2 = true ->
  upper_ascii typed = new_userCode r ->
  s !! ("uc:" +:+ new_userCode r) = Some (VRef d) ->
  d <> EmptyString ->
  s !! d = Some (VGrant g) ->
  normalize (Some (w1 +:+ typed +:+ w2)) = new_userCode r /\
  resolve s (normalize (Some (w1 +:+ typed +:+ w2))) = Some (VGrant g) /\
  device_deny strict (Some u) s (Some (w1 +:+ typed +:+ w2))
    = (<[d := VGrant (set_status denied g)]> s, json (PMessage "Device denied")) /\
  (t <= expiresAt g -> status g = pending ->
   device_approve (Some u) t s (Some (w1 +:+ typed +:+ w2))
     = (<[d := VGrant (approve_grant u g)]> s,
        json (PApproved "Device approved" (new_userCode r)))).
Proof.
  intros H1 H2 Hup Hi Hd Hg.
  pose proof (normalize_padded r w1 w2 typed H1 H2 Hup) as Hn.
  pose proof (proj1 (truthy_ne d) Hd) as Hd'.
  split; [exact Hn|]. split; [|split].
  - unfold resolve. rewrite Hn, Hi. cbn [Backend.truthy]. rewrite Hd'.
    cbn [get]. rewrite Hg. reflexivity.
  - unfold device_deny. rewrite Hn, Hi. cbn [Backend.truthy]. rewrite Hd'.
    cbn [get]. rewrite Hg. reflexivity.
  - intros Ht Hp.
    rewrite (device_approve_pending u t s _ d g); rewrite ?Hn;
      try assumption; [reflexivity | apply truthy_new_userCode].
Qed.

Lemma typed_code_is_normalized_witness :
  normalize (Some (Scenario.nbsp +:+ "dlt2-9Gpw" +:+ Scenario.tab_nl))
    = "DLT2-9GPW" /\
  device_deny false (Some Scenario.bob) Scenario.created
    (Some (Scenario.nbsp +:+ "dlt2-9Gpw" +:+ Scenario.tab_nl))
    = (<[Scenario.device := VGrant (set_status denied (new_grant Scenario.code 0 0))]>
         Scenario.created,
       json (PMessage "Device denied")) /\
  device_approve (Some Scenario.alice) 1000 Scenario.created
    (Some (Scenario.nbsp +:+ "dlt2-9Gpw" +:+ Scenario.tab_nl))
    = (<[Scenario.device :=
           VGrant (approve_grant Scenario.alice (new_grant Scenario.code 0 0))]>
         Scenario.created,
       json (PApproved "Device approved" "DLT2-9GPW")).
Proof.
  assert (H1 : blank Scenario.nbsp = true) by reflexivity.
  assert (H2 : blank Scenario.tab_nl = true) by reflexivity.
  assert (H3 : upper_ascii "dlt2-9Gpw" = new_userCode Scenario.rng)
    by (vm_compute; reflexivity).
  assert (H4 : Scenario.created !! ("uc:" +:+ new_userCode Scenario.rng)
               = Some (VRef Scenario.device)) by (vm_compute; reflexivity).
  assert (H5 : Scenario.device <> EmptyString) by discriminate.
  assert (H6 : Scenario.created !! Scenario.device
               = Some (VGrant (new_grant Scenario.code 0 0)))
    by (vm_compute; reflexivity).
  assert (H7 : 1000 <= expiresAt (new_grant Scenario.code 0 0))
    by (vm_compute; discriminate).
  assert (H8 : status (new_grant Scenario.code 0 0) = pending) by reflexivity.
  destruct (typed_code_is_normalized Scenario.rng Scenario.nbsp Scenario.tab_nl
              "dlt2-9Gpw" false Scenario.bob 1000 Scenario.created
              Scenario.device (new_grant Scenario.code 0 0)
              H1 H2 H3 H4 H5 H6) as (E1 & _ & E2 & _).
  destruct (typed_code_is_normalized Scenario.rng Scenario.nbsp Scenario.tab_nl
              "dlt2-9Gpw" false Scenario.alice 1000 Scenario.created
              Scenario.device (new_grant Scenario.code 0 0)
              H1 H2 H3 H4 H5 H6) as (_ & _ & _ & E3).
  split; [exact E1 | split; [exact E2 | exact (E3 H7 H8)]].
Defined.

(* ===================================================================== *)
(** ** Interleaved redemptions *)
(* ===================================================================== *)

Module ConcurrentFacts.
Import Concurrent.

Lemma map_replicate {A B : Type} (f : A -> B) (n : nat) (x : A) :
  map f (replicate n x) = replicate n (f x).
Proof. induction n as [|n IH]; simpl; [reflexivity | now rewrite IH]. Qed.

Lemma replies_done (n : nat) (r : Response) :
  replies (replicate n (HDone r)) = replicate n r.
Proof.
  unfold replies. induction n as [|n IH]; simpl; [reflexivity|].
  f_equal. exact IH.
Qed.

Lemma run_app (db : Db) (a b : list (nat * Z)) (st : Store * list Handler) :
  run db (a ++ b) st = run db b (run db a st).
Proof. unfold run. apply fold_left_app. Qed.

(** Resuming the handler that sits right after [done]. *)
Lemma advance_middle (db : Db) (now : Z) (s s' : Store)
    (done todo : list Handler) (h h' : Handler) :
  token_step db now s h = (s', h') ->
  advance db (s, done ++ h :: todo) (length done, now)
    = (s', done ++ h' :: todo).
Proof.
  intros Hstep. unfold advance. simpl.
  rewrite list_lookup_middle by reflexivity. rewrite Hstep.
  rewrite insert_app_r_alt by lia. rewrite Nat.sub_diag. reflexivity.
Qed.

(** One round over the handlers [todo], when each of them takes the same
    kind of step on every store satisfying [P]. *)
Lemma run_round (db : Db) (now : Z) (P : Store -> Prop)
    (g : Store -> Store) (f : Handler -> Handler) (todo : list Handler) :
  Forall (fun h => forall s, P s -> token_step db now s h = (g s, f h) /\ P (g s))
         todo ->
  forall (done : list Handler) (s : Store),
    P s ->
    exists s',
      run db (map (fun i => (i, now)) (seq (length done) (length todo)))
          (s, done ++ todo) = (s', done ++ map f todo) /\ P s'.
Proof.
  induction 1 as [|h todo Hh _ IH]; intros done s Hs.
  - exists s. split; [reflexivity | assumption].
  - destruct (Hh s Hs) as [Hstep HP].
    destruct (IH (done ++ [f h]) (g s) HP) as (s' & Hrun & HP').
    exists s'. split; [|assumption].
    simpl. unfold run in *. simpl.
    rewrite (advance_middle db now s (g s) done todo h (f h) Hstep).
    rewrite length_app, Nat.add_1_r in Hrun.
    rewrite <- !app_assoc in Hrun. exact Hrun.
Qed.

Lemma round_from_start (db : Db) (now : Z) (P : Store -> Prop)
    (g : Store -> Store) (f : Handler -> Handler) (n : nat) (h : Handler)
    (s : Store) :
  (forall s, P s -> token_step db now s h = (g s, f h) /\ P (g s)) ->
  P s ->
  exists s', run db (round n now) (s, replicate n h) = (s', replicate n (f h)) /\ P s'.
Proof.
  intros Hh Hs.
  destruct (run_round db now P g f (replicate n h)) with (done := @nil Handler) (s := s)
    as (s' & Hrun & HP).
  - apply Forall_replicate. exact Hh.
  - exact Hs.
  - exists s'. split; [|exact HP].
    rewrite length_replicate, map_replicate in Hrun. exact Hrun.
Qed.

End ConcurrentFacts.

Import Concurrent ConcurrentFacts.

(** C5 (the code departs from the claim).  The approved branch of
    [device-token] reads the entry, awaits the two database reads and only
    then deletes.  With [n] redemptions of one approved, unexpired grant in
    flight together - each one started before any of them has resumed - every
    one of the [n] replies is the credential payload; none is
    [expired_token]. *)
Theorem concurrent_redeems_all_issue (db : Db) (now : Z) (s : Store)
    (d : string) (g : Grant) (p : Profile) (n : nat) :
  d <> EmptyString ->
  s !! d = Some (VGrant g) ->
  status g = approved ->
  now <= expiresAt g ->
  findUnique db (userId g) = Some p ->
  replies (run db (round n now ++ round n now ++ round n now)
               (s, replicate n (HStart (Some d)))).2
  = replicate n (json (PToken (apiKey g) p
                         (map workspace_info (findMany db (userId g))))).
Proof.
  intros Hd Hg Hst Ht Hp.
  rewrite !run_app.
  destruct (round_from_start db now (fun s' => s' = s) (fun s' => s')
              (fun _ => HAwaitUser d g) n (HStart (Some d)) s)
    as (s1 & -> & ->); [| reflexivity |].
  { intros s' ->. split; [|reflexivity]. simpl.
    apply truthy_ne in Hd. rewrite Hd, Hg. simpl.
    rewrite (not_expired_yet _ _ Ht), Hst. reflexivity. }
  destruct (round_from_start db now (fun _ => True) (fun s' => s')
              (fun _ => HAwaitMembers d g (Some p)) n (HAwaitUser d g) s)
    as (s2 & -> & _); [| exact I |].
  { intros s' _. split; [|exact I]. simpl. now rewrite Hp. }
  destruct (round_from_start db now (fun _ => True)
              (fun s' => delete ("uc:" +:+ userCode g) (delete d s'))
              (fun _ => HDone (json (PToken (apiKey g) p
                                       (map workspace_info (findMany db (userId g))))))
              n (HAwaitMembers d g (Some p)) s2)
    as (s3 & -> & _); [| exact I |].
  { intros s' _. split; [|exact I]. reflexivity. }
  simpl. apply replies_done.
Qed.

Lemma concurrent_redeems_all_issue_witness :
  Scenario.approved_by_alice !! Scenario.device
    = Some (VGrant (approve_grant Scenario.alice (new_grant Scenario.code 0 0))) /\
  replies (run Scenario.db (round 100 2000 ++ round 100 2000 ++ round 100 2000)
               (Scenario.approved_by_alice,
                replicate 100 (HStart (Some Scenario.device)))).2
  = replicate 100
      (json (PToken (Some "hs_alice") Scenario.alice_profile
               [ {| slug := "default"; name := "Default"; role := "OWNER" |} ])).
Proof.
  assert (H1 : Scenario.device <> EmptyString) by discriminate.
  assert (H2 : Scenario.approved_by_alice !! Scenario.device
               = Some (VGrant (approve_grant Scenario.alice
                                 (new_grant Scenario.code 0 0))))
    by (vm_compute; reflexivity).
  assert (H3 : status (approve_grant Scenario.alice (new_grant Scenario.code 0 0))
               = approved) by reflexivity.
  assert (H4 : 2000 <= expiresAt (approve_grant Scenario.alice
                                    (new_grant Scenario.code 0 0)))
    by (vm_compute; discriminate).
  assert (H5 : findUnique Scenario.db
                 (userId (approve_grant Scenario.alice (new_grant Scenario.code 0 0)))
               = Some Scenario.alice_profile) by reflexivity.
  split; [exact H2|].
  exact (concurrent_redeems_all_issue Scenario.db 2000 Scenario.approved_by_alice
           Scenario.device _ Scenario.alice_profile 100 H1 H2 H3 H4 H5).
Defined.

(** Run without interruption, the three segments of a handler make up
    [device_token], wherever the handler sits in the pool. *)
Lemma run_alone (db : Db) (now : Z) (s : Store) (body : BodyValue)
    (done todo : list Handler) :
  run db (alone now (length done)) (s, done ++ HStart body :: todo)
  = ((device_token db now s body).1,
     done ++ HDone (device_token db now s body).2 :: todo).
Proof.
  assert (Hdone : forall s' r,
    run db [(length done, now); (length done, now)] (s', done ++ HDone r :: todo)
    = (s', done ++ HDone r :: todo)).
  { intros s' r. unfold run. simpl.
    now rewrite !(advance_middle db now s' s' done todo (HDone r) (HDone r) eq_refl). }
  unfold alone.
  change [(length done, now); (length done, now); (length done, now)]
    with ([(length done, now)] ++ [(length done, now); (length done, now)]).
  rewrite run_app. unfold run at 2. simpl fold_left.
  destruct (token_step db now s (HStart body)) as [s1 h1] eqn:E1.
  rewrite (advance_middle db now s s1 done todo _ h1 E1).
  revert E1. unfold device_token.
  destruct body as [body|]; simpl; [| intros [= <- <-]; apply Hdone].
  destruct (Js.truthy (or_empty body)); simpl;
    [| intros [= <- <-]; apply Hdone].
  destruct (s !! or_empty body) as [entry|]; [| intros [= <- <-]; apply Hdone].
  destruct (Backend.truthy entry); simpl; [| intros [= <- <-]; apply Hdone].
  destruct (expired now entry); [intros [= <- <-]; apply Hdone|].
  destruct entry as [g|?]; [| intros [= <- <-]; apply Hdone].
  destruct (status g); intros [= <- <-]; try apply Hdone.
  unfold run. simpl.
  rewrite (advance_middle db now s s done todo (HAwaitUser (or_empty body) g)
             (HAwaitMembers (or_empty body) g (findUnique db (userId g)))
             eq_refl).
  destruct (issue s (or_empty body) g (findUnique db (userId g))
              (findMany db (userId g))) as [s3 r3] eqn:E3.
  rewrite (advance_middle db now s s3 done todo
             (HAwaitMembers (or_empty body) g (findUnique db (userId g)))
             (HDone r3)).
  - reflexivity.
  - simpl. now rewrite E3.
Qed.

(** With every handler run to completion before the next one starts, the
    pool answers as [redeem_all] does. *)
Lemma run_one_by_one (db : Db) (now : Z) (body : BodyValue) (n : nat) :
  forall (done : list Handler) (s : Store),
    run db (flat_map (alone now) (seq (length done) n))
        (s, done ++ replicate n (HStart body))
    = ((redeem_all db (replicate n now) s body).1,
       done ++ map HDone (redeem_all db (replicate n now) s body).2).
Proof.
  induction n as [|n IH]; intros done s.
  - simpl. now rewrite app_nil_r.
  - cbn [seq flat_map replicate redeem_all].
    rewrite run_app, run_alone.
    specialize (IH (done ++ [HDone (device_token db now s body).2])
                   (device_token db now s body).1).
    rewrite length_app, Nat.add_1_r in IH.
    rewrite <- !app_assoc in IH. simpl app in IH. rewrite IH.
    destruct (device_token db now s body) as [s1 r1]. cbn [fst snd].
    destruct (redeem_all db (replicate n now) s1 body) as [s2 rs]. reflexivity.
Qed.

(** X15.  Run one after the other, [S n] redemptions of an approved,
    unexpired grant answer with the credential payload once and
    [expired_token] [n] times: it is the interleaving at the [await]s that lets more than one
    handler reply with the payload. *)
Lemma sequential_redeems_issue_once (db : Db) (now : Z) (s : Store)
    (d : string) (g : Grant) (p : Profile) (n : nat) :
  d <> EmptyString ->
  s !! d = Some (VGrant g) ->
  status g = approved ->
  now <= expiresAt g ->
  findUnique db (userId g) = Some p ->
  replies (run db (one_by_one (S n) now)
               (s, replicate (S n) (HStart (Some d)))).2
  = json (PToken (apiKey g) p (map workspace_info (findMany db (userId g))))
    :: replicate n Expired.
Proof.
  intros Hd Hg Hst Ht Hp. unfold one_by_one.
  pose proof (run_one_by_one db now (Some d) (S n) [] s) as Hrun.
  change (length (@nil Handler)) with 0%nat in Hrun.
  change ([] ++ replicate (S n) (HStart (Some d)))
    with (replicate (S n) (HStart (Some d))) in Hrun.
  rewrite Hrun. clear Hrun.
  cbn [fst snd app replicate redeem_all].
  rewrite (device_token_approved db now s d g p Hd Hg Ht Hst Hp).
  rewrite redeem_all_not_found.
  - cbn [fst snd map]. unfold replies. simpl. f_equal.
    clear. induction n as [|n IH]; simpl; [reflexivity | now rewrite IH].
  - exact Hd.
  - destruct (decide (d = "uc:" +:+ userCode g)) as [E|E].
    + rewrite <- E. apply lookup_delete_eq.
    + rewrite lookup_delete_ne by congruence. apply lookup_delete_eq.
Qed.

(* ===================================================================== *)
(** ** The poll loop *)
(* ===================================================================== *)

Module CliFacts.
Import Cli.
Local Open Scope nat_scope.

Lemma ceil_div_upper (a b : nat) : 0 < b -> a <= ceil_div a b * b.
Proof.
  intros Hb. unfold ceil_div.
  pose proof (Nat.div_mod_eq a b) as E.
  pose proof (Nat.mod_upper_bound a b ltac:(lia)) as Hm.
  destruct (a mod b =? 0) eqn:Hz.
  - apply Nat.eqb_eq in Hz. nia.
  - nia.
Qed.

Lemma ceil_div_least (a b n : nat) : 0 < b -> a <= n * b -> ceil_div a b <= n.
Proof.
  intros Hb Hn. unfold ceil_div.
  pose proof (Nat.div_mod_eq a b) as E.
  pose proof (Nat.mod_upper_bound a b ltac:(lia)) as Hm.
  destruct (a mod b =? 0) eqn:Hz.
  - apply Nat.eqb_eq in Hz. nia.
  - apply Nat.eqb_neq in Hz. nia.
Qed.

Lemma or_default_pos (x : option nat) (d : nat) : 0 < d -> 0 < or_default x d.
Proof. intros Hd. destruct x as [[|n]|]; simpl; lia. Qed.

Lemma poll_bounds (remaining attempt : nat) (server : nat -> Fetched) :
  attempt <= (poll remaining attempt server).2 <= attempt + remaining.
Proof.
  revert attempt. induction remaining as [|k IH]; intros attempt; simpl.
  - lia.
  - pose proof (IH (S attempt)) as IH'.
    destruct (server (S attempt)) as [|st key saved]; [lia|].
    destruct (st =? 428); [lia|].
    destruct (st =? 403); [simpl; lia|].
    destruct (st =? 410); [simpl; lia|].
    destruct key as [key|]; [|simpl; lia].
    destruct (ok st && Js.truthy key); [|simpl; lia].
    destruct saved; [simpl; lia | lia].
Qed.

Lemma poll_transient (remaining attempt : nat) (server : nat -> Fetched) :
  (forall i, attempt < i <= attempt + remaining -> transient (server i) = true) ->
  poll remaining attempt server = (TimedOut, attempt + remaining).
Proof.
  revert attempt. induction remaining as [|k IH]; intros attempt H; simpl.
  - f_equal. lia.
  - assert (Hk : poll k (S attempt) server = (TimedOut, attempt + S k)).
    { rewrite IH; [f_equal; lia|]. intros i Hi. apply H. lia. }
    pose proof (H (S attempt) ltac:(lia)) as Hs.
    destruct (server (S attempt)) as [|st key saved]; [exact Hk|].
    simpl in Hs.
    destruct (st =? 428); [exact Hk|]. simpl in Hs.
    destruct (st =? 403); [discriminate|].
    destruct (st =? 410); [discriminate|]. simpl in Hs.
    destruct key as [key|]; [|now rewrite andb_false_r in Hs].
    destruct (ok st); [|discriminate]. simpl in Hs |- *.
    destruct (Js.truthy key); [|discriminate].
    destruct saved; [discriminate | exact Hk].
Qed.

Lemma poll_timed_out (remaining attempt : nat) (server : nat -> Fetched) :
  (poll remaining attempt server).1 = TimedOut ->
  forall i, attempt < i <= attempt + remaining -> transient (server i) = true.
Proof.
  revert attempt. induction remaining as [|k IH]; intros attempt H i Hi.
  - lia.
  - simpl in H.
    assert (Hrec : (poll k (S attempt) server).1 = TimedOut ->
                   transient (server (S attempt)) = true ->
                   transient (server i) = true).
    { intros Hp Hs. destruct (Nat.eq_dec i (S attempt)) as [->|Hne];
        [exact Hs | apply (IH (S attempt) Hp); lia]. }
    destruct (server (S attempt)) as [|st key saved] eqn:Es.
    + apply Hrec; [exact H | reflexivity].
    + destruct (st =? 428) eqn:E428.
      { apply Hrec; [exact H | simpl; now rewrite E428]. }
      destruct (st =? 403) eqn:E403; [discriminate|].
      destruct (st =? 410) eqn:E410; [discriminate|].
      destruct key as [key|]; [|discriminate].
      destruct (ok st) eqn:Eok; [|discriminate]. simpl in H.
      destruct (Js.truthy key) eqn:Ek; [|discriminate].
      destruct saved; [discriminate|].
      apply Hrec; [exact H|]. simpl.
      now rewrite E428, E403, E410, Eok, Ek.
Qed.

End CliFacts.

Import Cli CliFacts.

(** C9.  With [e] the [expires_in] and [i] the [interval] of the
    device-code reply (600 and 5 where the field is missing or zero), the
    budget of the poll loop is the ceiling of [e / i]: the least [n] with
    [e <= n * i].  The loop makes at most that many requests; a rejected
    [fetch] uses up one attempt like a pending reply, so a run in which
    every request is rejected or pending ends as "Timed out" after exactly
    the budget of requests; the loop ends as "Timed out" only when every
    request of the budget met a pending reply or an exception caught in the
    loop body; and the time-out line differs from the one printed for a 410
    reply. *)
Theorem poll_attempt_budget (res : DeviceRes) (e i : nat)
    (server : nat -> Fetched) :
  (expires_in res = Some e /\ (0 < e)%nat) \/
    ((expires_in res = None \/ expires_in res = Some 0%nat) /\ e = 600%nat) ->
  (interval res = Some i /\ (0 < i)%nat) \/
    ((interval res = None \/ interval res = Some 0%nat) /\ i = 5%nat) ->
  ((e <= maxAttempts res * i)%nat /\
   (forall n : nat, (e <= n * i)%nat -> (maxAttempts res <= n)%nat)) /\
  ((login_poll res server).2 <= maxAttempts res)%nat /\
  ((forall j : nat, (1 <= j <= maxAttempts res)%nat ->
      server j = Rejected \/
      exists key saved, server j = Replied 428 key saved) ->
   login_poll res server = (TimedOut, maxAttempts res)) /\
  ((login_poll res server).1 = TimedOut <->
   (forall j : nat, (1 <= j <= maxAttempts res)%nat ->
      transient (server j) = true)) /\
  ((login_poll res server).1 = TimedOut ->
   (login_poll res server).2 = maxAttempts res) /\
  message TimedOut <> message CodeExpired.
Proof.
  intros He Hi.
  assert (Ee : or_default (expires_in res) 600 = e).
  { destruct He as [[-> H] | [[-> | ->] ->]]; [|reflexivity|reflexivity].
    destruct e; [lia | reflexivity]. }
  assert (Ei : or_default (interval res) 5 = i).
  { destruct Hi as [[-> H] | [[-> | ->] ->]]; [|reflexivity|reflexivity].
    destruct i; [lia | reflexivity]. }
  assert (Hstep : (0 < i)%nat) by (destruct Hi as [[_ H] | [_ ->]]; lia).
  assert (Eb : maxAttempts res = ceil_div e i)
    by (unfold maxAttempts; now rewrite Ee, Ei).
  set (budget := maxAttempts res) in *.
  assert (Hall : (forall j : nat, (1 <= j <= budget)%nat ->
                                  transient (server j) = true)
                 -> login_poll res server = (TimedOut, budget)).
  { intros H. unfold login_poll. fold budget.
    rewrite poll_transient; [reflexivity|]. intros j Hj. apply H. lia. }
  assert (Hinv : (login_poll res server).1 = TimedOut ->
                 forall j : nat, (1 <= j <= budget)%nat ->
                                 transient (server j) = true).
  { intros H j Hj. apply (poll_timed_out budget 0 server H). lia. }
  split; [split|split; [|split; [|split; [split|split]]]].
  - rewrite Eb. apply ceil_div_upper. exact Hstep.
  - intros n Hn. rewrite Eb. now apply ceil_div_least.
  - pose proof (poll_bounds budget 0 server) as Hb. unfold login_poll.
    fold budget. lia.
  - intros H. apply Hall. intros j Hj.
    destruct (H j Hj) as [-> | (key & saved & ->)]; reflexivity.
  - exact Hinv.
  - intros H. now rewrite (Hall H).
  - intros H. now rewrite (Hall (Hinv H)).
  - discriminate.
Qed.

Lemma poll_attempt_budget_witness :
  let res := {| device_code := Scenario.device; expires_in := Some 61%nat;
                interval := Some 7%nat |} in
  let server := fun j : nat => if Nat.even j then Rejected
                               else Replied 428 None false in
  (expires_in res = Some 61%nat /\ (0 < 61)%nat) /\
  (interval res = Some 7%nat /\ (0 < 7)%nat) /\
  (61 <= maxAttempts res * 7)%nat /\
  (forall n : nat, (61 <= n * 7)%nat -> (maxAttempts res <= n)%nat) /\
  maxAttempts res = 9%nat /\
  login_poll res server = (TimedOut, 9%nat).
Proof.
  intros res server.
  assert (H1 : expires_in res = Some 61%nat /\ (0 < 61)%nat)
    by (split; [reflexivity | lia]).
  assert (H2 : interval res = Some 7%nat /\ (0 < 7)%nat)
    by (split; [reflexivity | lia]).
  destruct (poll_attempt_budget res 61 7 server (or_introl H1) (or_introl H2))
    as ([Hup Hleast] & _ & Hrun & _).
  assert (Hb : maxAttempts res = 9%nat).
  { apply Nat.le_antisymm; [apply Hleast; lia | lia]. }
  split; [exact H1 | split; [exact H2 | split; [exact Hup | split; [exact Hleast|]]]].
  split; [exact Hb|]. rewrite <- Hb. apply Hrun.
  intros j _. unfold server.
  destruct (Nat.even j); [now left | right; eauto].
Defined.

(* ===================================================================== *)
(** ** Further properties of the code generator *)
(* ===================================================================== *)

Module ShapeFacts.
Import Shape.

Lemma length_append (a b : string) :
  String.length (a +:+ b) = (String.length a + String.length b)%nat.
Proof. induction a as [|c a IH]; simpl; [reflexivity | now rewrite IH]. Qed.

Lemma all_chars_app (p : ascii -> bool) (a b : string) :
  all_chars p (a +:+ b) = all_chars p a && all_chars p b.
Proof.
  induction a as [|c a IH]; simpl; [reflexivity|].
  now rewrite IH, andb_assoc.
Qed.

Lemma alphabet_symbol (i : nat) :
  (i < 32)%nat ->
  exists c, char_at chars i = String c EmptyString /\ unambiguous c = true.
Proof.
  intros Hi.
  do 32 (destruct i as [|i]; [eexists; split; vm_compute; reflexivity|]).
  lia.
Qed.

Lemma append_code_char_shape (code : string) (b : nat) :
  String.length (append_code_char code b) = S (String.length code) /\
  all_chars unambiguous (append_code_char code b) = all_chars unambiguous code.
Proof.
  unfold append_code_char.
  destruct (alphabet_symbol (b mod String.length chars)) as (c & -> & Hc).
  { change (String.length chars) with 32%nat.
    apply Nat.mod_upper_bound. discriminate. }
  rewrite length_append, all_chars_app. simpl. rewrite Hc.
  split; [lia | now rewrite andb_true_r].
Qed.

Lemma fold_code_shape (bytes : list nat) (code : string) :
  String.length (fold_left append_code_char bytes code)
    = (String.length code + length bytes)%nat /\
  all_chars unambiguous (fold_left append_code_char bytes code)
    = all_chars unambiguous code.
Proof.
  revert code. induction bytes as [|b bs IH]; intros code; simpl.
  - split; [lia | reflexivity].
  - destruct (IH (append_code_char code b)) as [IH1 IH2].
    destruct (append_code_char_shape code b) as [H1 H2].
    rewrite IH1, IH2, H1, H2. split; [lia | reflexivity].
Qed.

Lemma length_randomBytes (n : nat) (r : Rng) : length (randomBytes n r).1 = n.
Proof. unfold randomBytes. simpl. now rewrite length_map, length_seq. Qed.

Lemma randomBytes_small (n : nat) (r : Rng) :
  Forall (fun b => (b < 256)%nat) (randomBytes n r).1.
Proof.
  unfold randomBytes. cbn [fst]. apply Forall_forall. intros b Hb.
  apply list_elem_of_In, in_map_iff in Hb as (i & Hi & _). subst b.
  apply Nat.mod_upper_bound. discriminate.
Qed.

Lemma hex_digit_is_hex (n : nat) : (n < 16)%nat -> is_hex (hex_digit n) = true.
Proof.
  intros Hn. do 16 (destruct n as [|n]; [reflexivity|]). lia.
Qed.

Lemma toHex_shape (bytes : list nat) :
  Forall (fun b => (b < 256)%nat) bytes ->
  String.length (toHex bytes) = (2 * length bytes)%nat /\
  all_chars is_hex (toHex bytes) = true.
Proof.
  induction 1 as [|b bs Hb _ [IH1 IH2]].
  - split; reflexivity.
  - assert (Hlo : (b mod 16 < 16)%nat) by (apply Nat.mod_upper_bound; discriminate).
    assert (Hhi : (b / 16 < 16)%nat) by (apply Nat.Div0.div_lt_upper_bound; lia).
    cbn [toHex String.length all_chars length].
    rewrite IH1, IH2, (hex_digit_is_hex _ Hlo), (hex_digit_is_hex _ Hhi).
    split; [lia | reflexivity].
Qed.

Lemma generateCode_shape_aux (len : nat) (r : Rng) :
  String.length (generateCode len r).1 = len /\
  all_chars unambiguous (generateCode len r).1 = true /\
  (generateCode len r).2 = {| draw := draw r; pos := (pos r + len)%nat |}.
Proof.
  unfold generateCode.
  destruct (randomBytes len r) as [bytes r'] eqn:E. simpl.
  destruct (fold_code_shape bytes EmptyString) as [H1 H2].
  rewrite H1, H2. simpl.
  pose proof (length_randomBytes len r) as Hl. rewrite E in Hl. simpl in Hl.
  repeat split; [exact Hl|].
  unfold randomBytes in E. now injection E as _ <-.
Qed.

End ShapeFacts.

Import Shape ShapeFacts.

(** X1.  [generateCode(len)] consumes exactly [len] bytes of the random
    source and returns exactly [len] symbols, each an upper-case letter
    other than I and O or a digit from 2 to 9. *)
Theorem generateCode_shape (len : nat) (r : Rng) :
  String.length (generateCode len r).1 = len /\
  all_chars unambiguous (generateCode len r).1 = true /\
  (generateCode len r).2 = {| draw := draw r; pos := (pos r + len)%nat |}.
Proof.
  unfold generateCode.
  destruct (randomBytes len r) as [bytes r'] eqn:E. cbn [fst snd].
  destruct (fold_code_shape bytes EmptyString) as [Hlen Hall].
  pose proof (length_randomBytes len r) as Hl. rewrite E in Hl. cbn [fst] in Hl.
  split; [|split].
  - rewrite Hlen, Hl. reflexivity.
  - rewrite Hall. reflexivity.
  - unfold randomBytes in E. now injection E as _ <-.
Qed.

(** X2.  The map from random bytes to symbols is free of modulo bias: each
    of the 32 symbols of the alphabet comes from exactly 8 of the 256 byte
    values, and no byte yields any other character. *)
Theorem generateCode_unbiased (c : ascii) :
  length (bytes_for c) = if unambiguous c then 8%nat else 0%nat.
Proof.
  destruct c as [[] [] [] [] [] [] [] []]; vm_compute; reflexivity.
Qed.

(** X3.  The codes of a [device-code] reply: [device_code] is 64 lower-case
    hexadecimal digits, [user_code] is two groups of four symbols of the
    alphabet joined by a dash, the complete verification address ends in the
    user code, and the request consumes 40 bytes of the random source. *)
Theorem device_code_reply_shape (r : Rng) (now now' : Z) (s : Store) :
  exists d c1 c2,
    (Backend.device_code r now now' s).1.2
      = json (PDeviceCode d (c1 +:+ "-" +:+ c2)
                "https://cascadeai.dev/hyperstack/device"
                ("https://cascadeai.dev/hyperstack/device?code="
                   +:+ c1 +:+ "-" +:+ c2)
                600 5) /\
    String.length d = 64%nat /\ all_chars is_hex d = true /\
    String.length c1 = 4%nat /\ all_chars unambiguous c1 = true /\
    String.length c2 = 4%nat /\ all_chars unambiguous c2 = true /\
    (Backend.device_code r now now' s).2 = {| draw := draw r; pos := (pos r + 40)%nat |}.
Proof.
  unfold Backend.device_code.
  destruct (randomBytes 32 r) as [bytes r1] eqn:E0.
  destruct (generateCode 4 r1) as [c1 r2] eqn:E1.
  destruct (generateCode 4 r2) as [c2 r3] eqn:E2.
  exists (toHex bytes), c1, c2. simpl.
  pose proof (length_randomBytes 32 r) as Hl.
  pose proof (randomBytes_small 32 r) as Hs.
  rewrite E0 in Hl, Hs. simpl in Hl, Hs.
  destruct (toHex_shape bytes Hs) as [Hh1 Hh2].
  pose proof (generateCode_shape_aux 4 r1) as G1.
  pose proof (generateCode_shape_aux 4 r2) as G2.
  rewrite E1 in G1. rewrite E2 in G2. simpl in G1, G2.
  destruct G1 as (G11 & G12 & ->). destruct G2 as (G21 & G22 & ->).
  rewrite Hh1, Hl. repeat split; try assumption.
  unfold randomBytes in E0. injection E0 as _ <-. simpl.
  f_equal. lia.
Qed.

(* ===================================================================== *)
(** ** Further properties of the handlers *)
(* ===================================================================== *)

Module HandlerFacts.

(** What [device-approve] can do to the map. *)
Lemma device_approve_cases {Eng : Engine} (auth : option User.t) (now : Z) (s : Store)
    (code : option string) :
  ((device_approve auth now s code).1 = s /\
   exists msg st, (device_approve auth now s code).2 = error msg st) \/
  (exists u d g,
      auth = Some u /\
      s !! ("uc:" +:+ normalize code) = Some (VRef d) /\
      s !! d = Some (VGrant g) /\ status g = pending /\ now <= expiresAt g /\
      device_approve auth now s code
        = (<[d := VGrant (approve_grant u g)]> s,
           json (PApproved "Device approved" (normalize code)))).
Proof.
  unfold device_approve.
  destruct auth as [u|]; [|left; split; eauto].
  destruct (Js.truthy (normalize code)); simpl; [|left; split; eauto].
  destruct (s !! ("uc:" +:+ normalize code)) as [dc|] eqn:Hi;
    [|left; split; eauto].
  destruct (Backend.truthy dc); simpl; [|left; split; eauto].
  destruct (get s dc) as [entry|] eqn:Hg; [|left; split; eauto].
  destruct (Backend.truthy entry); simpl; [|left; split; eauto].
  destruct (expired now entry) eqn:Hx; [left; split; eauto|].
  destruct dc as [?|d]; [left; split; eauto|].
  destruct entry as [g|?]; [|left; split; eauto].
  destruct (status g) eqn:Hst; try (left; split; eauto; fail).
  right. exists u, d, g. simpl in *. repeat split; try assumption.
  rewrite Z.gtb_ltb in Hx. apply Z.ltb_ge in Hx. lia.
Qed.

(** What [device-deny] can do to the map. *)
Lemma device_deny_cases {Eng : Engine} (strict : bool) (auth : option User.t) (s : Store)
    (code : option string) :
  (device_deny strict auth s code).1 = s \/
  (exists d g,
      s !! ("uc:" +:+ normalize code) = Some (VRef d) /\
      s !! d = Some (VGrant g) /\
      (device_deny strict auth s code).1 = <[d := VGrant (set_status denied g)]> s).
Proof.
  unfold device_deny.
  destruct auth as [u|]; [|now left].
  destruct (s !! ("uc:" +:+ normalize code)) as [dc|] eqn:Hi; [|now left].
  destruct (Backend.truthy dc); [|now left].
  destruct dc as [?|d]; simpl.
  - now left.
  - destruct (s !! d) as [[g|e]|] eqn:Hg.
    + right. exists d, g. auto.
    + left. now destruct (Js.truthy e && strict).
    + now left.
Qed.

(** [device-token] only ever deletes. *)
Lemma device_token_shrinks (db : Db) (now : Z) (s : Store)
    (body : BodyValue) (k : string) (v : Value) :
  (device_token db now s body).1 !! k = Some v -> s !! k = Some v.
Proof.
  unfold device_token. destruct body as [body|]; [|auto].
  destruct (Js.truthy (or_empty body)); simpl; [|auto].
  destruct (s !! or_empty body) as [entry|]; [|auto].
  destruct (Backend.truthy entry); simpl; [|auto].
  assert (D1 : delete (or_empty body) s !! k = Some v -> s !! k = Some v).
  { intros H. apply lookup_delete_Some in H. tauto. }
  assert (D2 : forall c, delete c (delete (or_empty body) s) !! k = Some v ->
                         s !! k = Some v).
  { intros c H. apply lookup_delete_Some in H. apply D1. tauto. }
  destruct (expired now entry); [exact D1|].
  destruct entry as [g|?]; [|auto].
  destruct (status g); simpl; [auto | | apply D2].
  unfold issue. destruct (findUnique db (userId g)); simpl; apply D2.
Qed.

(** The same for any value of the [user_code] field: the exception leaves
    the map alone. *)
Lemma device_approve_store {Eng : Engine} (auth : option User.t) (now : Z)
    (s : Store) (code : BodyValue) :
  (device_approve auth now s code).1 = s \/
  (exists u d g,
      s !! d = Some (VGrant g) /\
      (device_approve auth now s code).1 = <[d := VGrant (approve_grant u g)]> s).
Proof.
  destruct code as [code|].
  - destruct (device_approve_cases auth now s code)
      as [[E _] | (u & d & g & _ & _ & Hg & _ & _ & E)]; [now left|].
    right. exists u, d, g. now rewrite E.
  - left. unfold device_approve. now destruct auth.
Qed.

Lemma device_deny_store {Eng : Engine} (strict : bool) (auth : option User.t)
    (s : Store) (code : BodyValue) :
  (device_deny strict auth s code).1 = s \/
  (exists d g,
      s !! d = Some (VGrant g) /\
      (device_deny strict auth s code).1 = <[d := VGrant (set_status denied g)]> s).
Proof.
  destruct code as [code|].
  - destruct (device_deny_cases strict auth s code)
      as [E | (d & g & _ & Hg & E)]; [now left|].
    right. exists d, g. now rewrite E.
  - left. unfold device_deny. now destruct auth.
Qed.

Lemma set_status_fields (st : Status) (g : Grant) :
  userCode (set_status st g) = userCode g /\
  expiresAt (set_status st g) = expiresAt g /\
  createdAt (set_status st g) = createdAt g.
Proof. repeat split. Qed.

Lemma is_index_key_uc (c : string) : is_index_key ("uc:" +:+ c) = true.
Proof.
  unfold is_index_key. simpl.
  destruct c; reflexivity.
Qed.

Lemma is_index_key_new_deviceCode (r : Rng) : is_index_key (new_deviceCode r) = false.
Proof.
  destruct (new_deviceCode_head r) as (c & rest & -> & Hc).
  unfold is_index_key. simpl.
  destruct (Ascii.eqb_spec "u"%char c) as [<-|Hne]; [now destruct Hc|].
  destruct c as [[] [] [] [] [] [] [] []]; try reflexivity. now destruct Hne.
Qed.

End HandlerFacts.

Import HandlerFacts.

(** X4.  Polling a pending grant before it expires answers
    [authorization_pending] with status 428 every time and leaves the map
    exactly as it was: polling neither consumes the grant nor extends its
    lifetime. *)
Theorem pending_polls_change_nothing (db : Db) (times : list Z) (s : Store)
    (d : string) (g : Grant) :
  d <> EmptyString ->
  s !! d = Some (VGrant g) ->
  status g = pending ->
  Forall (fun t => t <= expiresAt g) times ->
  redeem_all db times s (Some d)
    = (s, map (fun _ => AuthorizationPending) times).
Proof.
  intros Hd Hg Hst Hts. induction Hts as [|t ts Ht _ IH]; simpl; [reflexivity|].
  assert (E : device_token db t s (Some d) = (s, AuthorizationPending)).
  { unfold device_token. simpl. apply truthy_ne in Hd. rewrite Hd, Hg. simpl.
    rewrite (not_expired_yet _ _ Ht), Hst. reflexivity. }
  rewrite E, IH. reflexivity.
Qed.

Lemma pending_polls_change_nothing_witness :
  redeem_all Scenario.db [5000; 10000; 600000] Scenario.created
    (Some Scenario.device)
  = (Scenario.created,
     [AuthorizationPending; AuthorizationPending; AuthorizationPending]).
Proof.
  assert (H1 : Scenario.device <> EmptyString) by discriminate.
  assert (H2 : Scenario.created !! Scenario.device
               = Some (VGrant (new_grant Scenario.code 0 0)))
    by (vm_compute; reflexivity).
  assert (H3 : status (new_grant Scenario.code 0 0) = pending) by reflexivity.
  assert (H4 : Forall (fun t => t <= expiresAt (new_grant Scenario.code 0 0))
                      [5000; 10000; 600000]).
  { repeat constructor; vm_compute; discriminate. }
  exact (pending_polls_change_nothing Scenario.db [5000; 10000; 600000]
           Scenario.created Scenario.device _ H1 H2 H3 H4).
Defined.

(** X5.  Redeeming a denied, unexpired grant answers [access_denied] with
    status 403 once and removes both the grant and its index entry; every
    later redeem answers [expired_token], and approving the pairing code
    afterwards answers "Invalid or expired code" with status 404. *)
Theorem denied_redeem_consumes {Eng : Engine} (db : Db) (now t : Z) (later : list Z)
    (s : Store) (d : string) (g : Grant) (u : User.t) (code : option string) :
  d <> EmptyString ->
  s !! d = Some (VGrant g) ->
  status g = denied ->
  now <= expiresAt g ->
  normalize code = userCode g ->
  Js.truthy (userCode g) = true ->
  let s1 := delete ("uc:" +:+ userCode g) (delete d s) in
  device_token db now s (Some d) = (s1, AccessDenied) /\
  redeem_all db later s1 (Some d) = (s1, map (fun _ => Expired) later) /\
  device_approve (Some u) t s1 code
    = (s1, error "Invalid or expired code" (Some 404%nat)).
Proof.
  intros Hd Hg Hst Ht Hc Hcode s1.
  assert (H1 : s1 !! d = None).
  { unfold s1. destruct (decide (d = "uc:" +:+ userCode g)) as [E|E].
    - rewrite <- E. apply lookup_delete_eq.
    - rewrite lookup_delete_ne by congruence. apply lookup_delete_eq. }
  split; [|split].
  - unfold device_token. simpl. pose proof Hd as Hd'.
    apply truthy_ne in Hd'. rewrite Hd', Hg. simpl.
    rewrite (not_expired_yet _ _ Ht), Hst. reflexivity.
  - apply redeem_all_not_found; assumption.
  - unfold device_approve. rewrite Hc, Hcode. simpl.
    unfold s1. rewrite lookup_delete_eq. reflexivity.
Qed.

Lemma denied_redeem_consumes_witness :
  let s := (device_deny false (Some Scenario.bob) Scenario.created
              (Some Scenario.code)).1 in
  let s1 := delete ("uc:" +:+ Scenario.code) (delete Scenario.device s) in
  device_token Scenario.db 3000 s (Some Scenario.device) = (s1, AccessDenied) /\
  redeem_all Scenario.db [8000; 13000] s1 (Some Scenario.device)
    = (s1, [Expired; Expired]) /\
  device_approve (Some Scenario.alice) 9000 s1 (Some "dlt2-9gpw")
    = (s1, error "Invalid or expired code" (Some 404%nat)).
Proof.
  intros s s1.
  assert (H1 : Scenario.device <> EmptyString) by discriminate.
  assert (H2 : s !! Scenario.device
               = Some (VGrant (set_status denied (new_grant Scenario.code 0 0))))
    by (vm_compute; reflexivity).
  assert (H3 : status (set_status denied (new_grant Scenario.code 0 0)) = denied)
    by reflexivity.
  assert (H4 : 3000 <= expiresAt (set_status denied (new_grant Scenario.code 0 0)))
    by (vm_compute; discriminate).
  assert (H5 : normalize (Some "dlt2-9gpw")
               = userCode (set_status denied (new_grant Scenario.code 0 0)))
    by reflexivity.
  assert (H6 : Js.truthy (userCode (set_status denied (new_grant Scenario.code 0 0)))
               = true) by reflexivity.
  exact (denied_redeem_consumes Scenario.db 3000 9000 [8000; 13000] s
           Scenario.device _ Scenario.alice (Some "dlt2-9gpw")
           H1 H2 H3 H4 H5 H6).
Defined.

(** X6.  Expiry comes before the stored status in [device-approve] and
    [device-token]: on a grant whose [expiresAt] has passed, approving
    answers "Code expired" with status 410 and changes nothing, and redeeming
    answers [expired_token] with status 410 and deletes the grant, whether it
    is pending, approved or denied.  [device-deny] has no expiry check: it
    still marks the grant denied. *)
Theorem expiry_comes_first {Eng : Engine} (strict : bool) (db : Db) (u : User.t) (now : Z)
    (s : Store) (code : option string) (d : string) (g : Grant) :
  Js.truthy (normalize code) = true ->
  s !! ("uc:" +:+ normalize code) = Some (VRef d) ->
  d <> EmptyString ->
  s !! d = Some (VGrant g) ->
  expiresAt g < now ->
  device_approve (Some u) now s code = (s, error "Code expired" (Some 410%nat)) /\
  device_token db now s (Some d) = (delete d s, Expired) /\
  device_deny strict (Some u) s code
    = (<[d := VGrant (set_status denied g)]> s, json (PMessage "Device denied")).
Proof.
  intros Hc Hi Hd Hg Ht. apply truthy_ne in Hd.
  split; [|split].
  - unfold device_approve. rewrite Hc, Hi. simpl. rewrite Hd. simpl.
    rewrite Hg. simpl. rewrite (expired_already _ _ Ht). reflexivity.
  - unfold device_token. simpl. rewrite Hd, Hg. simpl.
    rewrite (expired_already _ _ Ht). reflexivity.
  - unfold device_deny. rewrite Hi. simpl. rewrite Hd, Hg. reflexivity.
Qed.

Lemma expiry_comes_first_witness :
  device_approve (Some Scenario.alice) 600001 Scenario.created (Some Scenario.code)
    = (Scenario.created, error "Code expired" (Some 410%nat)) /\
  device_token Scenario.db 600001 Scenario.approved_by_alice (Some Scenario.device)
    = (delete Scenario.device Scenario.approved_by_alice, Expired).
Proof.
  assert (H1 : Js.truthy (normalize (Some Scenario.code)) = true) by reflexivity.
  assert (H2 : Scenario.created !! ("uc:" +:+ normalize (Some Scenario.code))
               = Some (VRef Scenario.device)) by (vm_compute; reflexivity).
  assert (H2' : Scenario.approved_by_alice !! ("uc:" +:+ normalize (Some Scenario.code))
               = Some (VRef Scenario.device)) by (vm_compute; reflexivity).
  assert (H3 : Scenario.device <> EmptyString) by discriminate.
  assert (H4 : Scenario.created !! Scenario.device
               = Some (VGrant (new_grant Scenario.code 0 0)))
    by (vm_compute; reflexivity).
  assert (H4' : Scenario.approved_by_alice !! Scenario.device
               = Some (VGrant (approve_grant Scenario.alice
                                 (new_grant Scenario.code 0 0))))
    by (vm_compute; reflexivity).
  assert (H5 : expiresAt (new_grant Scenario.code 0 0) < 600001) by reflexivity.
  split.
  - exact (proj1 (expiry_comes_first false Scenario.db Scenario.alice 600001
                    Scenario.created (Some Scenario.code) Scenario.device _
                    H1 H2 H3 H4 H5)).
  - exact (proj1 (proj2 (expiry_comes_first false Scenario.db Scenario.alice 600001
                    Scenario.approved_by_alice (Some Scenario.code)
                    Scenario.device _ H1 H2' H3 H4' H5))).
Defined.

(** X7.  [device-approve] is all or nothing: either it answers with an
    error and leaves the map untouched, or the caller is authenticated, the
    normalised code leads to a pending, unexpired grant, and the only change
    is that this grant becomes approved with the caller's id and API key,
    its code and lifetime as before; every other key, the index entry
    included, is untouched. *)
Theorem approve_all_or_nothing {Eng : Engine} (auth : option User.t) (now : Z) (s : Store)
    (code : option string) :
  ((device_approve auth now s code).1 = s /\
   exists msg st, (device_approve auth now s code).2 = error msg st) \/
  (exists u d g g',
      auth = Some u /\
      s !! ("uc:" +:+ normalize code) = Some (VRef d) /\
      s !! d = Some (VGrant g) /\ status g = pending /\ now <= expiresAt g /\
      (device_approve auth now s code).2
        = json (PApproved "Device approved" (normalize code)) /\
      (device_approve auth now s code).1 !! d = Some (VGrant g') /\
      status g' = approved /\
      userId g' = Some (User.id u) /\ apiKey g' = Some (User.apiKey u) /\
      userCode g' = userCode g /\ expiresAt g' = expiresAt g /\
      createdAt g' = createdAt g /\
      (forall k, k <> d ->
                 (device_approve auth now s code).1 !! k = s !! k)).
Proof.
  destruct (device_approve_cases auth now s code)
    as [Hfail | (u & d & g & Hu & Hi & Hg & Hst & Ht & E)]; [now left|].
  right. exists u, d, g, (approve_grant u g). rewrite E. cbn [fst snd].
  split; [exact Hu|]. split; [exact Hi|]. split; [exact Hg|].
  split; [exact Hst|]. split; [exact Ht|]. split; [reflexivity|].
  split; [apply lookup_insert_eq|].
  repeat (split; [reflexivity|]).
  intros k Hk. apply lookup_insert_ne. congruence.
Qed.

(* ===================================================================== *)
(** ** The sweep and the shape of the map *)
(* ===================================================================== *)

Module StoreFacts.

Lemma wf_empty : wf ∅.
Proof. intros k v H. now rewrite lookup_empty in H. Qed.

Lemma wf_insert (s : Store) (k : string) (v : Value) :
  wf s -> wf_entry k v -> wf (<[k := v]> s).
Proof.
  intros Hs Hv k' v' H. destruct (decide (k = k')) as [<-|Hne].
  - rewrite lookup_insert_eq in H. now injection H as <-.
  - rewrite lookup_insert_ne in H by assumption. now apply Hs.
Qed.

Lemma wf_shrink (s s' : Store) :
  (forall k v, s' !! k = Some v -> s !! k = Some v) -> wf s -> wf s'.
Proof. intros Hsub Hs k v H. apply Hs, Hsub, H. Qed.

Lemma sweep_shrinks (now : Z) (s : Store) (k : string) (v : Value) :
  sweep now s !! k = Some v -> s !! k = Some v.
Proof.
  rewrite sweep_lookup. destruct (s !! k) as [w|]; [|discriminate].
  destruct (expired now w); [discriminate | auto].
Qed.

Lemma wf_device_code (r : Rng) (now now' : Z) (s : Store) :
  wf s -> wf (Backend.device_code r now now' s).1.1.
Proof.
  intros Hs. rewrite device_code_eq. simpl.
  apply wf_insert; [apply wf_insert; [exact Hs|]|].
  - split; [apply is_index_key_new_deviceCode | split; reflexivity].
  - split; [apply is_index_key_uc|].
    split; [apply is_index_key_new_deviceCode|].
    apply truthy_ne, new_deviceCode_truthy.
Qed.

Lemma wf_device_approve {Eng : Engine} (auth : option User.t) (now : Z) (s : Store)
    (code : BodyValue) :
  wf s -> wf (device_approve auth now s code).1.
Proof.
  intros Hs.
  destruct (device_approve_store auth now s code)
    as [-> | (u & d & g & Hg & ->)]; [exact Hs|].
  apply wf_insert; [exact Hs|].
  destruct (Hs d _ Hg) as [Hk _]. split; [exact Hk|]. simpl. split; eauto.
Qed.

Lemma wf_device_deny {Eng : Engine} (strict : bool) (auth : option User.t) (s : Store)
    (code : BodyValue) :
  wf s -> wf (device_deny strict auth s code).1.
Proof.
  intros Hs.
  destruct (device_deny_store strict auth s code)
    as [-> | (d & g & Hg & ->)]; [exact Hs|].
  apply wf_insert; [exact Hs|].
  destruct (Hs d _ Hg) as [Hk _]. split; [exact Hk | exact I].
Qed.

Lemma wf_apply_event {Eng : Engine} (s : Store) (e : Event) : wf s -> wf (apply_event s e).
Proof.
  intros Hs. destruct e; simpl.
  - now apply wf_device_code.
  - now apply wf_device_approve.
  - now apply wf_device_deny.
  - apply (wf_shrink s); [apply device_token_shrinks | exact Hs].
  - apply (wf_shrink s); [apply sweep_shrinks | exact Hs].
Qed.

Lemma wf_exec {Eng : Engine} (events : list Event) (s : Store) : wf s -> wf (exec events s).
Proof.
  revert s. induction events as [|e es IH]; intros s Hs; simpl; [exact Hs|].
  apply IH, wf_apply_event, Hs.
Qed.

(** A key that is no index key enters the map through [device-code]
    only. *)
Lemma apply_event_keys {Eng : Engine} (s : Store) (e : Event) (k : string) :
  is_Some (apply_event s e !! k) ->
  is_Some (s !! k) \/ is_index_key k = true \/ In k (created_ids [e]).
Proof.
  assert (Ins : forall d v w, s !! d = Some w -> is_Some (<[d := v]> s !! k) ->
                              is_Some (s !! k)).
  { intros d v w Hd H. destruct (decide (d = k)) as [<-|Hne]; [eauto|].
    now rewrite lookup_insert_ne in H. }
  destruct e as [r now now' | auth now code | strict auth code | db now body | now];
    cbn [apply_event created_ids flat_map app]; intros H.
  - rewrite device_code_eq in H. cbn [fst] in H.
    destruct (decide (k = "uc:" +:+ new_userCode r)) as [->|H1].
    { right. left. apply is_index_key_uc. }
    destruct (decide (k = new_deviceCode r)) as [->|H2].
    { right. right. now left. }
    left. now rewrite !lookup_insert_ne in H by congruence.
  - left. destruct (device_approve_store auth now s code)
      as [E | (u & d & g & Hg & E)]; rewrite E in H; eauto.
  - left. destruct (device_deny_store strict auth s code)
      as [E | (d & g & Hg & E)]; rewrite E in H; eauto.
  - left. destruct H as [v H]. exists v. now apply device_token_shrinks in H.
  - left. destruct H as [v H]. exists v. now apply sweep_shrinks in H.
Qed.

Lemma created_ids_cons (e : Event) (es : list Event) :
  created_ids (e :: es) = created_ids [e] ++ created_ids es.
Proof. unfold created_ids. cbn [flat_map]. now rewrite app_nil_r. Qed.

Lemma exec_keys {Eng : Engine} (events : list Event) (s : Store) (k : string) :
  is_Some (exec events s !! k) ->
  is_Some (s !! k) \/ is_index_key k = true \/ In k (created_ids events).
Proof.
  revert s. induction events as [|e es IH]; intros s H; [now left|].
  rewrite created_ids_cons.
  change (exec (e :: es) s) with (exec es (apply_event s e)) in H.
  destruct (IH _ H) as [H1 | [H1 | H1]].
  - destruct (apply_event_keys s e k H1) as [H2 | [H2 | H2]]; auto.
    right. right. apply in_or_app. now left.
  - auto.
  - right. right. apply in_or_app. now right.
Qed.

(** On a well-formed map an index key leads to a grant or to nothing. *)
Lemma wf_index_target (s : Store) (k d : string) :
  wf s -> s !! k = Some (VRef d) ->
  Js.truthy d = true /\
  (s !! d = None \/ exists g, s !! d = Some (VGrant g)).
Proof.
  intros Hs Hk. destruct (Hs k _ Hk) as (_ & Hd & Hne).
  split; [now apply truthy_ne|].
  destruct (s !! d) as [[g|e]|] eqn:E; eauto.
  destruct (Hs d _ E) as (Hd' & _). congruence.
Qed.

Lemma wf_index_holds_ref (s : Store) (c : string) (v : Value) :
  wf s -> s !! ("uc:" +:+ c) = Some v -> exists d, v = VRef d.
Proof.
  intros Hs Hv. destruct v as [g|d]; [|eauto].
  destruct (Hs _ _ Hv) as [Hk _]. rewrite is_index_key_uc in Hk. discriminate.
Qed.

Lemma expired_mono (t now : Z) (v : Value) :
  t <= now -> expired t v = true -> expired now v = true.
Proof.
  intros Ht. destruct v as [g|?]; simpl; [|auto].
  rewrite !Z.gtb_ltb. intros H%Z.ltb_lt. apply Z.ltb_lt. lia.
Qed.

Lemma deny_reply_wf {Eng : Engine} (strict : bool) (u : User.t) (s : Store)
    (code : option string) :
  wf s -> (device_deny strict (Some u) s code).2 = json (PMessage "Device denied").
Proof.
  intros Hs. unfold device_deny.
  destruct (s !! ("uc:" +:+ normalize code)) as [dc|] eqn:Hi; [|reflexivity].
  destruct (wf_index_holds_ref s _ _ Hs Hi) as [d ->].
  destruct (wf_index_target s _ d Hs Hi) as [Hd [Hn | [g Hg]]];
    simpl; rewrite Hd; simpl.
  - now rewrite Hn.
  - now rewrite Hg.
Qed.

End StoreFacts.

Import StoreFacts.

(** X8.  Starting from the empty map, whatever requests and sweeps are
    made, index keys hold non-empty strings that are not index keys, other
    keys hold grants, a pending grant has no approver and an approved grant
    has both a user id and an API key. *)
Theorem store_shape_is_kept {Eng : Engine} (events : list Event) : wf (exec events ∅).
Proof.
  unfold exec. generalize wf_empty. generalize (∅ : Store).
  induction events as [|e es IH]; intros s Hs; simpl.
  - exact Hs.
  - apply IH. destruct e; simpl.
    + now apply wf_device_code.
    + now apply wf_device_approve.
    + now apply wf_device_deny.
    + apply (wf_shrink s); [apply device_token_shrinks | exact Hs].
    + apply (wf_shrink s); [apply sweep_shrinks | exact Hs].
Qed.

(** X9.  In every map reached from the empty one, an authenticated
    [device-deny] given a [user_code] that is a string or missing answers
    "Device denied" (the assignment to a string, which throws in strict
    mode, cannot occur); given a truthy value that is not a string it throws
    at [.trim()] and leaves the map alone; and [device-token] answers
    "Unknown state" only when the submitted device code is an index key. *)
Theorem reachable_replies {Eng : Engine} (events : list Event) :
  let s := exec events ∅ in
  (forall strict u (code : option string),
      (device_deny strict (Some u) s code).2 = json (PMessage "Device denied")) /\
  (forall strict u, device_deny strict (Some u) s NotText = (s, TypeError)) /\
  (forall db now (body : BodyValue),
      (device_token db now s body).2 = error "Unknown state" (Some 500%nat) ->
      exists k, body = Some k /\ is_index_key k = true).
Proof.
  intros s. assert (Hs : wf s) by apply wf_exec, wf_empty.
  split; [|split].
  - intros strict u code. now apply deny_reply_wf.
  - reflexivity.
  - intros db now body. unfold device_token.
    destruct body as [[k|]|]; cbn [or_empty Js.truthy negb]; try discriminate.
    destruct (Js.truthy k); simpl; [|discriminate].
    destruct (s !! k) as [entry|] eqn:E; [|discriminate].
    destruct (Backend.truthy entry); simpl; [|discriminate].
    destruct (expired now entry); [discriminate|].
    destruct entry as [g|e].
    + destruct (status g); try discriminate.
      unfold issue. destruct (findUnique db (userId g)); discriminate.
    + intros _. exists k. split; [reflexivity|].
      now destruct (Hs _ _ E) as [Hk _].
Qed.




(** X10.  Right after a [device-code] request, redeeming with
    ["uc:" + user_code] in place of the device code answers "Unknown state"
    with status 500 and changes nothing: the index entry is found, has no
    [expiresAt] and no [status]. *)
Theorem redeem_by_index_key (r : Rng) (now now' t : Z) (s : Store) (db : Db) :
  let s' := (Backend.device_code r now now' s).1.1 in
  device_token db t s' (Some ("uc:" +:+ new_userCode r))
    = (s', error "Unknown state" (Some 500%nat)).
Proof.
  intros s'. subst s'. rewrite device_code_eq. cbn [fst].
  unfold device_token. cbn [or_empty].
  assert (Hk : Js.truthy ("uc:" +:+ new_userCode r) = true) by reflexivity.
  rewrite Hk, lookup_insert_eq. cbn [negb Backend.truthy expired].
  now rewrite new_deviceCode_truthy.
Qed.

(** X11.  A sweep at an earlier or equal time makes no difference to what
    [device-token] and [device-approve] answer: on a well-formed map their
    replies after the sweep are the replies without it. *)
Theorem sweep_is_transparent {Eng : Engine} (db : Db) (auth : option User.t) (t now : Z)
    (s : Store) (body code : option string) :
  wf s ->
  t <= now ->
  (device_token db now (sweep t s) body).2 = (device_token db now s body).2 /\
  (device_approve auth now (sweep t s) code).2
    = (device_approve auth now s code).2.
Proof.
  intros Hs Ht. split.
  - unfold device_token.
    destruct (Js.truthy (or_empty body)); simpl; [|reflexivity].
    rewrite sweep_lookup.
    destruct (s !! or_empty body) as [entry|] eqn:E; [|reflexivity].
    destruct (expired t entry) eqn:Ex.
    + rewrite (expired_mono t now entry Ht Ex).
      destruct entry; [reflexivity | discriminate].
    + destruct (Backend.truthy entry); simpl; [|reflexivity].
      destruct (expired now entry); [reflexivity|].
      destruct entry as [g|?]; [|reflexivity].
      destruct (status g); try reflexivity.
      unfold issue. now destruct (findUnique db (userId g)).
  - unfold device_approve. destruct auth as [u|]; [|reflexivity].
    destruct (Js.truthy (normalize code)); simpl; [|reflexivity].
    rewrite sweep_lookup.
    destruct (s !! ("uc:" +:+ normalize code)) as [dc|] eqn:Hi; [|reflexivity].
    destruct (wf_index_holds_ref s _ _ Hs Hi) as [d ->]. simpl.
    destruct (wf_index_target s _ d Hs Hi) as [Hd [Hn | [g Hg]]];
      rewrite Hd; simpl; rewrite sweep_lookup.
    + now rewrite Hn.
    + rewrite Hg. simpl. destruct (t >? expiresAt g) eqn:Ex.
      * assert (En : (now >? expiresAt g) = true)
          by (apply (expired_mono t now (VGrant g) Ht Ex)).
        now rewrite En.
      * simpl. destruct (now >? expiresAt g); [reflexivity|].
        now destruct (status g).
Qed.

Lemma sweep_is_transparent_witness :
  (device_token Scenario.db 700000 (sweep 650000 Scenario.approved_by_alice)
     (Some Scenario.device)).2
  = (device_token Scenario.db 700000 Scenario.approved_by_alice
       (Some Scenario.device)).2 /\
  (device_approve (Some Scenario.bob) 700000
     (sweep 650000 Scenario.approved_by_alice) (Some Scenario.code)).2
  = (device_approve (Some Scenario.bob) 700000 Scenario.approved_by_alice
       (Some Scenario.code)).2.
Proof.
  assert (H1 : wf Scenario.approved_by_alice).
  { apply wf_device_approve. unfold Scenario.created.
    apply wf_device_code, wf_empty. }
  assert (H2 : 650000 <= 700000) by lia.
  exact (sweep_is_transparent Scenario.db (Some Scenario.bob) 650000 700000
           Scenario.approved_by_alice (Some Scenario.device)
           (Some Scenario.code) H1 H2).
Defined.

(** X12.  Two sweeps amount to one sweep at the later of the two times (so
    a sweep repeated at the same time changes nothing more); a sweep removes
    exactly the grants whose [expiresAt] lies before its time and keeps every
    string entry. *)
Theorem sweep_twice (t1 t2 : Z) (s : Store) :
  sweep t2 (sweep t1 s) = sweep (Z.max t1 t2) s /\
  (forall k, sweep t1 s !! k =
             match s !! k with
             | Some (VGrant g) => if expiresAt g <? t1 then None else Some (VGrant g)
             | other => other
             end).
Proof.
  split.
  - apply map_eq. intros k. rewrite !sweep_lookup.
    destruct (s !! k) as [[g|d]|]; simpl; try reflexivity.
    rewrite !Z.gtb_ltb.
    destruct (expiresAt g <? t1) eqn:E1; destruct (expiresAt g <? t2) eqn:E2;
      destruct (expiresAt g <? Z.max t1 t2) eqn:E3; simpl;
      rewrite ?Z.gtb_ltb, ?E2; try reflexivity;
      rewrite ?Z.ltb_lt, ?Z.ltb_ge in *; lia.
  - intros k. rewrite sweep_lookup.
    destruct (s !! k) as [[g|d]|]; simpl; try reflexivity.
    now rewrite Z.gtb_ltb.
Qed.

(** X13.  Approving, denying, redeeming and sweeping never create a grant
    and never touch the [userCode], [expiresAt] or [createdAt] of one: a
    grant found under a key after such an event was under that key before,
    with the same code and the same lifetime. *)
Theorem grant_lifetime_is_fixed {Eng : Engine} (e : Event) (s : Store) (k : string) (g' : Grant) :
  match e with EvCode _ _ _ => False | _ => True end ->
  apply_event s e !! k = Some (VGrant g') ->
  exists g, s !! k = Some (VGrant g) /\
            userCode g' = userCode g /\
            expiresAt g' = expiresAt g /\
            createdAt g' = createdAt g.
Proof.
  intros He H.
  assert (Same : s !! k = Some (VGrant g') ->
                 exists g, s !! k = Some (VGrant g) /\ userCode g' = userCode g /\
                           expiresAt g' = expiresAt g /\ createdAt g' = createdAt g)
    by (intros Hk; exists g'; auto).
  destruct e as [r now now' | auth now code | strict auth code | db now body | now];
    simpl in H.
  - destruct He.
  - destruct (device_approve_store auth now s code)
      as [E | (u & d & g & Hg & E)]; rewrite E in H.
    + now apply Same.
    + destruct (decide (d = k)) as [<-|Hne].
      * rewrite lookup_insert_eq in H. injection H as <-. exists g. auto.
      * rewrite lookup_insert_ne in H by assumption. now apply Same.
  - destruct (device_deny_store strict auth s code)
      as [E | (d & g & Hg & E)]; rewrite E in H.
    + now apply Same.
    + destruct (decide (d = k)) as [<-|Hne].
      * rewrite lookup_insert_eq in H. injection H as <-. exists g. auto.
      * rewrite lookup_insert_ne in H by assumption. now apply Same.
  - apply Same. now apply device_token_shrinks in H.
  - apply Same. now apply sweep_shrinks in H.
Qed.

Lemma grant_lifetime_is_fixed_witness :
  exists g, Scenario.created !! Scenario.device = Some (VGrant g) /\
            userCode (approve_grant Scenario.alice (new_grant Scenario.code 0 0))
              = userCode g /\
            expiresAt (approve_grant Scenario.alice (new_grant Scenario.code 0 0))
              = expiresAt g /\
            createdAt (approve_grant Scenario.alice (new_grant Scenario.code 0 0))
              = createdAt g.
Proof.
  assert (H : apply_event Scenario.created
                (EvApprove (Some Scenario.alice) 1000 (Some Scenario.code))
                !! Scenario.device
              = Some (VGrant (approve_grant Scenario.alice
                                (new_grant Scenario.code 0 0))))
    by (vm_compute; reflexivity).
  exact (grant_lifetime_is_fixed
           (EvApprove (Some Scenario.alice) 1000 (Some Scenario.code))
           Scenario.created Scenario.device _ I H).
Defined.

(** X14.  After a pending, unexpired grant is denied, approving its code
    answers "Code already used" with status 409 and leaves it denied, and
    denying it again changes nothing more. *)
Theorem denied_is_final_for_approve {Eng : Engine} (strict : bool) (u1 u2 u3 : User.t)
    (t : Z) (s : Store) (code : option string) (d : string) (g : Grant) :
  Js.truthy (normalize code) = true ->
  s !! ("uc:" +:+ normalize code) = Some (VRef d) ->
  d <> EmptyString ->
  s !! d = Some (VGrant g) ->
  t <= expiresAt g ->
  let s1 := <[d := VGrant (set_status denied g)]> s in
  device_deny strict (Some u1) s code = (s1, json (PMessage "Device denied")) /\
  device_approve (Some u2) t s1 code = (s1, AlreadyUsed) /\
  device_deny strict (Some u3) s1 code = (s1, json (PMessage "Device denied")).
Proof.
  intros Hc Hi Hd Hg Ht s1.
  pose proof (grant_key_not_index s d _ g d Hg Hi) as Hne.
  assert (Hi1 : s1 !! ("uc:" +:+ normalize code) = Some (VRef d)).
  { unfold s1. now rewrite lookup_insert_ne. }
  assert (Hg1 : s1 !! d = Some (VGrant (set_status denied g)))
    by apply lookup_insert_eq.
  pose proof Hd as Hd'. apply truthy_ne in Hd'.
  split; [|split].
  - unfold device_deny. rewrite Hi. simpl. rewrite Hd', Hg. reflexivity.
  - apply (device_approve_used u2 t s1 code d (set_status denied g));
      try assumption. discriminate.
  - unfold device_deny. rewrite Hi1. simpl. rewrite Hd', Hg1.
    unfold s1. now rewrite insert_insert_eq.
Qed.

Lemma denied_is_final_for_approve_witness :
  let s1 := <[Scenario.device :=
                VGrant (set_status denied (new_grant Scenario.code 0 0))]>
              Scenario.created in
  device_deny true (Some Scenario.bob) Scenario.created (Some Scenario.code)
    = (s1, json (PMessage "Device denied")) /\
  device_approve (Some Scenario.alice) 2000 s1 (Some Scenario.code)
    = (s1, AlreadyUsed) /\
  device_deny true (Some Scenario.bob) s1 (Some Scenario.code)
    = (s1, json (PMessage "Device denied")).
Proof.
  assert (H1 : Js.truthy (normalize (Some Scenario.code)) = true) by reflexivity.
  assert (H2 : Scenario.created !! ("uc:" +:+ normalize (Some Scenario.code))
               = Some (VRef Scenario.device)) by (vm_compute; reflexivity).
  assert (H3 : Scenario.device <> EmptyString) by discriminate.
  assert (H4 : Scenario.created !! Scenario.device
               = Some (VGrant (new_grant Scenario.code 0 0)))
    by (vm_compute; reflexivity).
  assert (H5 : 2000 <= expiresAt (new_grant Scenario.code 0 0))
    by (vm_compute; discriminate).
  exact (denied_is_final_for_approve true Scenario.bob Scenario.alice Scenario.bob
           2000 Scenario.created (Some Scenario.code) Scenario.device _
           H1 H2 H3 H4 H5).
Defined.

Lemma sequential_redeems_issue_once_witness :
  replies (run Scenario.db (one_by_one 100 2000)
               (Scenario.approved_by_alice,
                replicate 100 (HStart (Some Scenario.device)))).2
  = json (PToken (Some "hs_alice") Scenario.alice_profile
            [ {| slug := "default"; name := "Default"; role := "OWNER" |} ])
    :: replicate 99 Expired.
Proof.
  assert (H1 : Scenario.device <> EmptyString) by discriminate.
  assert (H2 : Scenario.approved_by_alice !! Scenario.device
               = Some (VGrant (approve_grant Scenario.alice
                                 (new_grant Scenario.code 0 0))))
    by (vm_compute; reflexivity).
  assert (H3 : status (approve_grant Scenario.alice (new_grant Scenario.code 0 0))
               = approved) by reflexivity.
  assert (H4 : 2000 <= expiresAt (approve_grant Scenario.alice
                                    (new_grant Scenario.code 0 0)))
    by (vm_compute; discriminate).
  assert (H5 : findUnique Scenario.db
                 (userId (approve_grant Scenario.alice (new_grant Scenario.code 0 0)))
               = Some Scenario.alice_profile) by reflexivity.
  exact (sequential_redeems_issue_once Scenario.db 2000 Scenario.approved_by_alice
           Scenario.device _ Scenario.alice_profile 99 H1 H2 H3 H4 H5).
Defined.

(* ===================================================================== *)
(** ** Properties of the command-line helpers *)
(* ===================================================================== *)

Module CommandsProps.
Import Commands.
Local Open Scope nat_scope.

Lemma indexOf_absent (x : string) (args : list string) :
  ~ In x args -> indexOf x args = None.
Proof.
  induction args as [|a rest IH]; simpl; [reflexivity|].
  intros H. destruct (String.eqb_spec a x) as [->|_]; [tauto|].
  rewrite IH; tauto.
Qed.

Lemma indexOf_first (x : string) (pre rest : list string) :
  ~ In x pre -> indexOf x (pre ++ x :: rest) = Some (length pre).
Proof.
  induction pre as [|a pre IH]; simpl; intros H.
  - now rewrite String.eqb_refl.
  - destruct (String.eqb_spec a x) as [->|_]; [tauto|].
    rewrite IH; tauto.
Qed.

(** X16.  [getFlag] reads the argument that follows the first occurrence of
    [--name]: with no such argument before it, the value is the next
    argument - whatever it is, another flag included - or the fallback when
    the flag is the last argument; without the flag it is the fallback. *)
Theorem getFlag_first_occurrence (pre rest : list string) (name fallback : string) :
  ~ In ("--" +:+ name) pre ->
  getFlag pre name fallback = fallback /\
  getFlag (pre ++ ("--" +:+ name) :: rest) name fallback
    = match rest with
      | v :: _ => v
      | [] => fallback
      end.
Proof.
  intros H. unfold getFlag. split.
  - now rewrite indexOf_absent.
  - rewrite indexOf_first by assumption.
    rewrite length_app. simpl length.
    destruct rest as [|v rest'].
    + simpl. replace (length pre + 1 <=? length pre + 1) with true
        by (symmetry; apply Nat.leb_le; lia). reflexivity.
    + replace (length pre + S (length (v :: rest')) <=? length pre + 1) with false
        by (symmetry; apply Nat.leb_gt; simpl; lia).
      rewrite nth_error_app2 by lia.
      replace (length pre + 1 - length pre) with 1 by lia. reflexivity.
Qed.

Lemma getFlag_first_occurrence_witness :
  getFlag ["store"; "--title"; "Deploy"] "slug" "none" = "none" /\
  getFlag (["store"; "--title"; "Deploy"] ++ ["--slug"; "--type"; "task"; "--slug"; "b"])
          "slug" "none" = "--type".
Proof.
  assert (H : ~ In ("--" +:+ "slug") ["store"; "--title"; "Deploy"]).
  { simpl. intros [E|[E|[E|[]]]]; discriminate. }
  exact (getFlag_first_occurrence ["store"; "--title"; "Deploy"]
           ["--type"; "task"; "--slug"; "b"] "slug" "none" H).
Defined.

Lemma filter_all (f : string -> bool) (l : list string) :
  Forall (fun a => f a = true) l -> List.filter f l = l.
Proof.
  induction 1 as [|a l Ha _ IH]; simpl; [reflexivity|]. now rewrite Ha, IH.
Qed.

(** X17.  The query of the [search] command drops the arguments that start
    with two dashes but keeps the values that follow them: with
    [search <words> --flag value] the query is the words and the value,
    joined by single spaces. *)
Theorem search_query_keeps_flag_values (cmd flag value : string)
    (words : list string) :
  Forall (fun w => String.prefix "--" w = false) words ->
  String.prefix "--" flag = true ->
  String.prefix "--" value = false ->
  search_query (cmd :: words ++ [flag; value]) = join " " (words ++ [value]).
Proof.
  intros Hw Hf Hv. unfold search_query. simpl tl.
  rewrite List.filter_app. simpl. rewrite Hf, Hv. simpl.
  rewrite filter_all; [reflexivity|].
  eapply Forall_impl; [exact Hw|]. intros a Ha. simpl in Ha. now rewrite Ha.
Qed.

Lemma search_query_keeps_flag_values_witness :
  search_query ("search" :: ["what"; "blocks"; "deploy"] ++ ["--workspace"; "prod"])
  = "what blocks deploy prod".
Proof.
  assert (H1 : Forall (fun w => String.prefix "--" w = false)
                      ["what"; "blocks"; "deploy"])
    by (repeat constructor).
  assert (H2 : String.prefix "--" "--workspace" = true) by reflexivity.
  assert (H3 : String.prefix "--" "prod" = false) by reflexivity.
  exact (search_query_keeps_flag_values "search" "--workspace" "prod"
           ["what"; "blocks"; "deploy"] H1 H2 H3).
Defined.

(** The poll either runs out with every pass transient, or stops at the
    first pass that is not. *)
Lemma poll_spec (remaining attempt : nat) (server : nat -> Cli.Fetched) :
  ((forall i, attempt < i <= attempt + remaining ->
              Cli.transient (server i) = true) /\
   Cli.poll remaining attempt server = (Cli.TimedOut, attempt + remaining)) \/
  (exists k, attempt < k <= attempt + remaining /\
             (forall i, attempt < i < k -> Cli.transient (server i) = true) /\
             Cli.transient (server k) = false /\
             Cli.poll remaining attempt server = (verdict (server k), k)).
Proof.
  revert attempt. induction remaining as [|r IH]; intros attempt.
  - left. split; [intros i Hi; lia | simpl; f_equal; lia].
  - assert (Go : Cli.transient (server (S attempt)) = true ->
                 Cli.poll (S r) attempt server = Cli.poll r (S attempt) server ->
                 ((forall i, attempt < i <= attempt + S r ->
                             Cli.transient (server i) = true) /\
                  Cli.poll (S r) attempt server = (Cli.TimedOut, attempt + S r)) \/
                 (exists k, attempt < k <= attempt + S r /\
                    (forall i, attempt < i < k -> Cli.transient (server i) = true) /\
                    Cli.transient (server k) = false /\
                    Cli.poll (S r) attempt server = (verdict (server k), k))).
    { intros Ht ->. destruct (IH (S attempt)) as [[Hall E] | (k & Hk & Hb & Hn & E)].
      - left. split.
        + intros i Hi. destruct (Nat.eq_dec i (S attempt)) as [->|Hne];
            [exact Ht | apply Hall; lia].
        + rewrite E. f_equal. lia.
      - right. exists k. repeat split; try lia; try assumption.
        intros i Hi. destruct (Nat.eq_dec i (S attempt)) as [->|Hne];
          [exact Ht | apply Hb; lia]. }
    assert (Stop : Cli.transient (server (S attempt)) = false ->
                   Cli.poll (S r) attempt server
                     = (verdict (server (S attempt)), S attempt) ->
                   exists k, attempt < k <= attempt + S r /\
                     (forall i, attempt < i < k -> Cli.transient (server i) = true) /\
                     Cli.transient (server k) = false /\
                     Cli.poll (S r) attempt server = (verdict (server k), k)).
    { intros Hn E. exists (S attempt). repeat split; try lia; assumption. }
    simpl Cli.poll in *. unfold verdict in *.
    destruct (server (S attempt)) as [|st key saved] eqn:Es.
    + apply Go; reflexivity.
    + simpl Cli.transient in *.
      destruct (st =? 428) eqn:E428; [apply Go; reflexivity|].
      destruct (st =? 403) eqn:E403; [right; apply Stop; reflexivity|].
      destruct (st =? 410) eqn:E410; [right; apply Stop; reflexivity|].
      destruct key as [key|];
        [|right; apply Stop; [now rewrite andb_false_r | reflexivity]].
      destruct (Cli.ok st && Js.truthy key) eqn:Eok.
      * apply andb_true_iff in Eok as [Eo Ek]. rewrite Eo, Ek in *.
        destruct saved; [right; apply Stop; reflexivity | apply Go; reflexivity].
      * right. apply Stop; [|reflexivity]. simpl.
        apply andb_false_iff in Eok as [-> | ->]; simpl;
          [reflexivity | now rewrite andb_false_r].
Qed.

(** X18.  The first pass that does not leave the poll loop running decides
    how the login ends and is the last request made: a 403 reply ends it as
    "Device denied", a 410 reply as "Code expired", a 2xx reply with a
    non-empty [api_key] whose credentials are saved as logged in, anything
    else as an unexpected response. *)
Theorem poll_stops_at_first_terminal (res : Cli.DeviceRes)
    (server : nat -> Cli.Fetched) (k : nat) :
  1 <= k <= Cli.maxAttempts res ->
  (forall i, 1 <= i < k -> Cli.transient (server i) = true) ->
  Cli.transient (server k) = false ->
  Cli.login_poll res server = (verdict (server k), k).
Proof.
  intros Hk Hb Hn. unfold Cli.login_poll.
  destruct (poll_spec (Cli.maxAttempts res) 0 server)
    as [[Hall _] | (k' & Hk' & Hb' & Hn' & E)].
  - rewrite Hall in Hn by lia. discriminate.
  - destruct (Nat.lt_trichotomy k k') as [Hlt | [-> | Hgt]].
    + rewrite Hb' in Hn by lia. discriminate.
    + exact E.
    + rewrite Hb in Hn' by lia. discriminate.
Qed.

Lemma poll_stops_at_first_terminal_witness :
  Cli.login_poll
    {| Cli.device_code := "d"; Cli.expires_in := Some 600; Cli.interval := Some 5 |}
    (fun i => if i <? 3 then Cli.Replied 428 None false
              else Cli.Replied 200 (Some "hs_key") true)
  = (Cli.LoggedIn "hs_key", 3).
Proof.
  set (res := {| Cli.device_code := "d"; Cli.expires_in := Some 600;
                 Cli.interval := Some 5 |}).
  set (server := fun i => if i <? 3 then Cli.Replied 428 None false
                          else Cli.Replied 200 (Some "hs_key") true).
  assert (H1 : 1 <= 3 <= Cli.maxAttempts res) by (vm_compute; split; lia).
  assert (H2 : forall i, 1 <= i < 3 -> Cli.transient (server i) = true).
  { intros i Hi. unfold server.
    replace (i <? 3) with true by (symmetry; apply Nat.ltb_lt; lia). reflexivity. }
  assert (H3 : Cli.transient (server 3) = false) by reflexivity.
  exact (poll_stops_at_first_terminal res server 3 H1 H2 H3).
Defined.

(** X19.  The login ends as logged in with a key only if one of the
    requests within the budget got a 2xx reply carrying exactly that
    non-empty [api_key] and the credentials were saved; every request before
    it was pending or threw. *)
Theorem logged_in_only_with_key (res : Cli.DeviceRes)
    (server : nat -> Cli.Fetched) (key : string) :
  (Cli.login_poll res server).1 = Cli.LoggedIn key ->
  exists k st,
    1 <= k <= Cli.maxAttempts res /\
    (Cli.login_poll res server).2 = k /\
    server k = Cli.Replied st (Some key) true /\
    Cli.ok st = true /\ Js.truthy key = true /\
    (forall i, 1 <= i < k -> Cli.transient (server i) = true).
Proof.
  unfold Cli.login_poll. intros H.
  destruct (poll_spec (Cli.maxAttempts res) 0 server)
    as [[_ E] | (k & Hk & Hb & Hn & E)]; rewrite E in H; simpl in H.
  - discriminate.
  - unfold verdict in H.
    destruct (server k) as [|st key' saved] eqn:Es; [discriminate|].
    destruct (st =? 403) eqn:E403; [discriminate|].
    destruct (st =? 410) eqn:E410; [discriminate|].
    destruct key' as [key'|]; [|discriminate].
    destruct (Cli.ok st && Js.truthy key') eqn:Eok; [|discriminate].
    injection H as ->. apply andb_true_iff in Eok as [Eo Ek].
    simpl in Hn. rewrite E403, E410, Eo, Ek in Hn. simpl in Hn.
    exists k, st. rewrite E. simpl.
    repeat split; try lia; try assumption.
    rewrite Es. destruct saved; [reflexivity|].
    destruct (st =? 428); simpl in Hn; discriminate.
Qed.

Lemma logged_in_only_with_key_witness :
  exists k st,
    1 <= k <= 120 /\
    (fun i => if i <? 3 then Cli.Replied 428 None false
              else Cli.Replied 200 (Some "hs_key") true) k
      = Cli.Replied st (Some "hs_key") true /\
    Cli.ok st = true.
Proof.
  set (res := {| Cli.device_code := "d"; Cli.expires_in := Some 600;
                 Cli.interval := Some 5 |}).
  set (server := fun i => if i <? 3 then Cli.Replied 428 None false
                          else Cli.Replied 200 (Some "hs_key") true).
  assert (H : (Cli.login_poll res server).1 = Cli.LoggedIn "hs_key")
    by (vm_compute; reflexivity).
  destruct (logged_in_only_with_key res server "hs_key" H)
    as (k & st & Hk & _ & Hs & Ho & _).
  exists k, st. split; [exact Hk | split; [exact Hs | exact Ho]].
Defined.

End CommandsProps.

Module LinksProps.
Import Commands.
Local Open Scope nat_scope.

Lemma split_cons (sep : ascii) (s : string) :
  exists p ps, split sep s = p :: ps.
Proof.
  induction s as [|c s (p & ps & IH)]; simpl; [eauto|].
  destruct (Ascii.eqb c sep); [eauto|]. rewrite IH. eauto.
Qed.

Lemma split_length (sep : ascii) (s : string) :
  length (split sep s) = S (occurrences sep s).
Proof.
  induction s as [|c s IH]; simpl; [reflexivity|].
  destruct (Ascii.eqb c sep); simpl; [now rewrite IH|].
  destruct (split_cons sep s) as (p & ps & E). rewrite E in *. exact IH.
Qed.

(** The pieces keep what held of every character and lose the separator. *)
Lemma split_pieces (q : ascii -> bool) (sep : ascii) (s : string) :
  all_chars q s = true ->
  Forall (fun p => all_chars (fun c => q c && negb (Ascii.eqb c sep)) p = true)
         (split sep s).
Proof.
  induction s as [|c s IH]; simpl.
  - intros _. repeat constructor.
  - intros [Hc Hs]%andb_true_iff. specialize (IH Hs).
    destruct (Ascii.eqb c sep) eqn:E.
    + constructor; [reflexivity | exact IH].
    + destruct (split_cons sep s) as (p & ps & Es). rewrite Es in *.
      inversion IH as [|? ? Hp Hps]; subst.
      constructor; [|exact Hps]. simpl. now rewrite Hc, E, Hp.
Qed.

(** [trimStart] returns what follows the leading white space, [trimEnd]
    what comes before the trailing white space. *)
Lemma strip1_keeps (q : ascii -> bool) (s s' : string) :
  strip1 s = Some s' -> all_chars q s = true -> all_chars q s' = true.
Proof.
  destruct s as [|a [|b [|c s]]]; cbn [strip1 all_chars];
    try destruct (white1 a); try destruct (white2 a b);
    try destruct (white3 a b c); try discriminate;
    intros [= <-] H; cbn [all_chars];
    repeat (apply andb_true_iff in H as [? H]); auto using andb_true_intro.
Qed.

Lemma trimStart_keeps (q : ascii -> bool) (s : string) :
  all_chars q s = true -> all_chars q (trimStart s) = true.
Proof.
  remember (String.length s) as n eqn:En.
  revert s En. induction n as [n IH] using lt_wf_ind. intros s En Hs.
  rewrite trimStart_strip1. destruct (strip1 s) as [s'|] eqn:E; [|exact Hs].
  apply (IH (String.length s')); [|reflexivity|].
  - subst n. now apply strip1_shorter.
  - now apply (strip1_keeps q s).
Qed.

Lemma trimEnd_keeps (q : ascii -> bool) (s : string) :
  all_chars q s = true -> all_chars q (trimEnd s) = true.
Proof.
  induction s as [|c s IH]; [auto|]. cbn [trimEnd all_chars].
  intros [Hc Hs]%andb_true_iff.
  destruct (blank (String c s)); [reflexivity|].
  cbn [all_chars]. now rewrite Hc, IH.
Qed.

Lemma parse_link_plain (l : string) :
  all_chars (fun c => negb (Ascii.eqb c ",")) l = true ->
  all_chars plain (target (parse_link l)) = true /\
  all_chars plain (relation (parse_link l)) = true /\
  Js.truthy (relation (parse_link l)) = true.
Proof.
  intros Hl.
  assert (Ht : all_chars (fun c => negb (Ascii.eqb c ",")) (trim l) = true)
    by (apply trimEnd_keeps, trimStart_keeps, Hl).
  pose proof (split_pieces _ ":" _ Ht) as Hp.
  assert (Q : forall p,
             all_chars (fun c => negb (Ascii.eqb c ",") && negb (Ascii.eqb c ":")) p = true ->
             all_chars plain p = true).
  { intros p. induction p as [|c p IH]; simpl; [auto|].
    intros [Hc Hr]%andb_true_iff. unfold plain at 1.
    apply andb_true_iff in Hc as [-> ->]. simpl. auto. }
  unfold parse_link.
  destruct (split ":" (trim l)) as [|t [|r rest]]; simpl.
  - repeat split.
  - inversion Hp; subst. repeat split. now apply Q.
  - inversion Hp as [|? ? H1 H2]; subst. inversion H2; subst.
    split; [now apply Q|].
    destruct r as [|c r]; simpl; [repeat split|].
    split; [|reflexivity]. now apply (Q (String c r)).
Qed.

(** X20.  The links read from [--links]: an empty value gives none;
    otherwise there is one link per comma-separated piece, and in every link
    neither the target nor the relation contains a colon or a comma and the
    relation is never empty (a piece without a relation gets "related"). *)
Theorem parse_links_shape (flag : string) :
  length (parse_links flag)
    = (if Js.truthy flag then S (occurrences "," flag) else 0) /\
  Forall (fun l => all_chars plain (target l) = true /\
                   all_chars plain (relation l) = true /\
                   Js.truthy (relation l) = true)
         (parse_links flag).
Proof.
  unfold parse_links. destruct (Js.truthy flag); [|split; [reflexivity | constructor]].
  split.
  - now rewrite length_map, split_length.
  - apply Forall_forall. intros l Hl.
    apply list_elem_of_In, in_map_iff in Hl as (piece & <- & Hin).
    apply parse_link_plain.
    assert (Hall : all_chars (fun _ => true) flag = true).
    { clear. induction flag as [|c s IH]; simpl; auto. }
    pose proof (split_pieces (fun _ => true) "," flag Hall) as Hp.
    rewrite Forall_forall in Hp.
    apply (Hp piece). now apply list_elem_of_In.
Qed.

End LinksProps.

(* ===================================================================== *)
(** ** Properties of the SDK client *)
(* ===================================================================== *)

Module ClientProps.
Import Client.
Local Open Scope nat_scope.

Lemma or_else_truthy (a : option string) (b : string) :
  Js.truthy b = true -> Js.truthy (or_else a b) = true.
Proof.
  intros Hb. unfold or_else. destruct a as [x|]; [|exact Hb].
  destruct (Js.truthy x) eqn:E; [exact E | exact Hb].
Qed.

Lemma or_else_first (a : option string) (x b : string) :
  a = Some x -> Js.truthy x = true -> or_else a b = x.
Proof. intros -> H. unfold or_else. now rewrite H. Qed.

Lemma or_else_falsy (a : option string) (b : string) :
  Js.truthy (or_else a b) = false ->
  Js.truthy (or_else a EmptyString) = false /\ Js.truthy b = false.
Proof.
  unfold or_else. destruct a as [x|]; [|auto].
  destruct (Js.truthy x) eqn:E; [congruence | auto].
Qed.

(** X21.  A client is never built without an API key: the constructor
    throws exactly when the option, the environment variable and the
    credentials file all lack one; a client that is built has a non-empty
    key, workspace and base address, an agent id that is absent or
    non-empty, and its key is the option's when that is non-empty. *)
Theorem construct_needs_key (opts : Options) (env : Env) (cred : string) :
  match construct opts env cred with
  | Some c =>
      Js.truthy (apiKey c) = true /\
      Js.truthy (workspace c) = true /\
      Js.truthy (baseUrl c) = true /\
      match agentId c with Some a => Js.truthy a = true | None => True end /\
      apiKey c = or_else (opt_apiKey opts) (or_else (HYPERSTACK_API_KEY env) cred)
  | None =>
      Js.truthy (or_else (opt_apiKey opts) EmptyString) = false /\
      Js.truthy (or_else (HYPERSTACK_API_KEY env) EmptyString) = false /\
      Js.truthy cred = false
  end.
Proof.
  unfold construct.
  destruct (Js.truthy (or_else (opt_apiKey opts)
                         (or_else (HYPERSTACK_API_KEY env) cred))) eqn:E.
  - simpl. repeat split.
    + exact E.
    + apply or_else_truthy, or_else_truthy. reflexivity.
    + apply or_else_truthy, or_else_truthy. reflexivity.
    + destruct (opt_agentId opts) as [a|]; [|exact I].
      destruct (Js.truthy a) eqn:Ea; [exact Ea | exact I].
  - apply or_else_falsy in E as [E1 E2].
    apply or_else_falsy in E2 as [E2 E3]. auto.
Qed.

Lemma includes_app_self (x : string) (l : list string) :
  includes x (l ++ [x]) = true.
Proof.
  unfold includes. rewrite existsb_app. simpl.
  rewrite String.eqb_refl. now rewrite orb_true_r.
Qed.

Lemma includes_count (x : string) (l : list string) :
  includes x l = negb (count_occ string_dec l x =? 0).
Proof.
  unfold includes. induction l as [|a l IH]; simpl; [reflexivity|].
  destruct (string_dec a x) as [->|Hne].
  - now rewrite String.eqb_refl.
  - rewrite IH. destruct (String.eqb_spec x a) as [->|_]; [congruence|].
    reflexivity.
Qed.

Lemma tag_idempotent (a : string) (card : Card) : tag a (tag a card) = tag a card.
Proof.
  unfold tag. simpl. rewrite insert_insert_eq. f_equal. f_equal.
  destruct (includes ("agent:" +:+ a)
              match keywords card with Some k => k | None => [] end) eqn:E.
  - now rewrite E.
  - now rewrite includes_app_self.
Qed.

Lemma tag_count (a : string) (card : Card) :
  let kw := match keywords card with Some k => k | None => [] end in
  exists kw', keywords (tag a card) = Some kw' /\
              count_occ string_dec kw' ("agent:" +:+ a)
                = Nat.max 1 (count_occ string_dec kw ("agent:" +:+ a)) /\
              forall x, x <> "agent:" +:+ a ->
                        count_occ string_dec kw' x = count_occ string_dec kw x.
Proof.
  intros kw. unfold tag. cbn [keywords]. fold kw.
  generalize ("agent:" +:+ a). intros t.
  eexists. split; [reflexivity|].
  rewrite includes_count.
  destruct (count_occ string_dec kw t) as [|n] eqn:E; cbn [Nat.eqb negb].
  - split.
    + rewrite count_occ_app, E, count_occ_cons_eq by reflexivity. reflexivity.
    + intros x Hx. rewrite count_occ_app, count_occ_cons_neq by congruence.
      simpl. lia.
  - split; [exact E | reflexivity].
Qed.

(** X22.  [store] rejects a card without a slug or without a title before
    any request is made.  Otherwise it issues one POST to the cards endpoint
    of the client's workspace; for a client with an agent id the card sent
    carries [meta.agentId] and the keyword ["agent:" + id] exactly once when
    it was not there before (all other keywords keep their number), and
    storing the card that was sent sends the same card again. *)
Theorem store_tags_once (c : t) (card : Card) :
  match store c card with
  | Throw msg =>
      (Js.truthy (slug card) = false /\ msg = "card.slug required") \/
      (Js.truthy (slug card) = true /\ Js.truthy (title card) = false /\
       msg = "card.title required")
  | Request method path sent =>
      method = "POST" /\ path = "/api/cards?workspace=" +:+ workspace c /\
      slug sent = slug card /\ title sent = title card /\
      store c sent = Request method path sent /\
      match agentId c with
      | Some a =>
          if Js.truthy a then
            (exists m, meta sent = Some m /\ m !! "agentId" = Some a) /\
            (exists kw, keywords sent = Some kw /\
               count_occ string_dec kw ("agent:" +:+ a)
                 = Nat.max 1 (count_occ string_dec
                                (match keywords card with Some k => k | None => [] end)
                                ("agent:" +:+ a)) /\
               forall x, x <> "agent:" +:+ a ->
                 count_occ string_dec kw x
                   = count_occ string_dec
                       (match keywords card with Some k => k | None => [] end) x)
          else sent = card
      | None => sent = card
      end
  end.
Proof.
  unfold store.
  destruct (Js.truthy (slug card)) eqn:Hs; simpl; [|left; auto].
  destruct (Js.truthy (title card)) eqn:Ht; simpl; [|right; auto].
  destruct (agentId c) as [a|]; [destruct (Js.truthy a) eqn:Ha|].
  - repeat split.
    + simpl. rewrite Hs, Ht. simpl. now rewrite tag_idempotent.
    + eexists. split; [reflexivity | apply lookup_insert_eq].
    + apply tag_count.
  - repeat split. now rewrite Hs, Ht.
  - repeat split. now rewrite Hs, Ht.
Qed.

Lemma find_slug (x : string) (ns : list Node) (d : Node) :
  n_slug d = x ->
  n_slug (match List.find (fun n => String.eqb (n_slug n) x) ns with
          | Some node => node
          | None => d
          end) = x.
Proof.
  intros Hd. destruct (List.find _ ns) as [node|] eqn:E; [|exact Hd].
  apply List.find_some in E as [_ E]. now apply String.eqb_eq in E.
Qed.

(** X23.  [blockers(slug)]: when the graph request succeeds, the blockers
    are, in order, one per edge of the reply with relation "blocks" that
    points at [slug], each with the slug of that edge's source.  When it
    fails with status 403, the blockers are the search results having a
    "blocks" link to [slug], in order; any other failure is thrown on. *)
Theorem blockers_follow_edges (about : string) (graph_reply : Graph + option nat)
    (search_reply : option (list Card) + option nat) :
  match graph_reply with
  | inl result =>
      exists bs,
        blockers about graph_reply search_reply = FromGraph bs result /\
        map n_slug bs
          = map e_from
              (List.filter (fun e => String.eqb (e_relation e) "blocks"
                                     && String.eqb (e_to e) about)
                           (match edges result with Some es => es | None => [] end))
  | inr status =>
      if base.decide (status = Some 403)
      then match search_reply with
           | inl results =>
               exists cs,
                 blockers about graph_reply search_reply = Fallback cs /\
                 cs = List.filter (blocks_link about)
                        (match results with Some l => l | None => [] end) /\
                 Forall (fun card => blocks_link about card = true) cs
           | inr status' =>
               blockers about graph_reply search_reply = Rethrown status'
           end
      else blockers about graph_reply search_reply = Rethrown status
  end.
Proof.
  destruct graph_reply as [result | status].
  - eexists. split; [reflexivity|].
    rewrite map_map. apply map_ext. intros e. now apply find_slug.
  - destruct (base.decide (status = Some 403)) as [->|Hne].
    + destruct search_reply as [results | status']; [|reflexivity].
      eexists. split; [reflexivity|]. split; [reflexivity|].
      apply Forall_forall. intros card Hc.
      apply list_elem_of_In, List.filter_In in Hc. tauto.
    + unfold blockers. destruct status as [n|]; [|reflexivity].
      do 404 (destruct n as [|n]; [try reflexivity; congruence|]).
      reflexivity.
Qed.

Lemma blocks_link_in (about : string) (card : Card) (ls : list Link) :
  links card = Some ls ->
  In {| target := about; relation := "blocks" |} ls ->
  blocks_link about card = true.
Proof.
  intros Hl Hin. unfold blocks_link. rewrite Hl.
  apply existsb_exists. eexists. split; [exact Hin|]. simpl.
  now rewrite String.eqb_refl.
Qed.

(** X24.  [decide] goes through [store]: with a slug and a title it sends
    one card of type "decision" in the stack "decisions" with the same slug
    and title, and for every slug listed under [blocks] that card has a
    "blocks" link to it, so it passes the filter that the fallback of
    [blockers] applies for that slug. *)
Theorem decide_records_blocks (c : t) (now : string) (d : Decision)
    (bl : list string) (b : string) :
  Js.truthy (d_slug d) = true ->
  Js.truthy (d_title d) = true ->
  d_blocks d = Some bl ->
  In b bl ->
  exists sent,
    decide c now d
      = Request "POST" ("/api/cards?workspace=" +:+ workspace c) sent /\
    slug sent = d_slug d /\ title sent = d_title d /\
    cardType sent = Some "decision" /\ stack sent = Some "decisions" /\
    links sent = Some (decision_links d) /\
    blocks_link b sent = true.
Proof.
  intros Hs Ht Hb Hin. unfold decide, store. cbn [slug title]. rewrite Hs, Ht.
  cbn [negb].
  set (card := {| slug := d_slug d |}).
  assert (Hl : In {| target := b; relation := "blocks" |} (decision_links d)).
  { unfold decision_links. rewrite Hb. apply in_or_app. right.
    apply in_or_app. right. apply in_map_iff. eauto. }
  assert (Hc : blocks_link b card = true)
    by (apply (blocks_link_in b card (decision_links d)); [reflexivity | exact Hl]).
  destruct (agentId c) as [a|]; [destruct (Js.truthy a)|];
    eexists; (split; [reflexivity|]); repeat split; exact Hc.
Qed.

Lemma decide_records_blocks_witness :
  exists sent,
    decide {| apiKey := "hs_k"; workspace := "default";
              baseUrl := DEFAULT_BASE; agentId := Some "ops" |}
           "2026-02-16T00:00:00.000Z"
           {| d_slug := "migration-23"; d_title := "Auth migration";
              d_body := None; d_decidedBy := Some "ops-agent";
              d_affects := Some ["auth-api"]; d_blocks := Some ["deploy-prod"];
              d_meta := None; d_keywords := None |}
      = Request "POST" "/api/cards?workspace=default" sent /\
    blocks_link "deploy-prod" sent = true /\
    keywords sent = Some ["agent:ops"].
Proof.
  set (c := {| apiKey := "hs_k"; workspace := "default";
               baseUrl := DEFAULT_BASE; agentId := Some "ops" |}).
  set (d := {| d_slug := "migration-23"; d_title := "Auth migration";
               d_body := None; d_decidedBy := Some "ops-agent";
               d_affects := Some ["auth-api"]; d_blocks := Some ["deploy-prod"];
               d_meta := None; d_keywords := None |}).
  assert (H1 : Js.truthy (d_slug d) = true) by reflexivity.
  assert (H2 : Js.truthy (d_title d) = true) by reflexivity.
  assert (H3 : d_blocks d = Some ["deploy-prod"]) by reflexivity.
  assert (H4 : In "deploy-prod" ["deploy-prod"]) by (left; reflexivity).
  destruct (decide_records_blocks c "2026-02-16T00:00:00.000Z" d
              ["deploy-prod"] "deploy-prod" H1 H2 H3 H4)
    as (sent & E & _ & _ & _ & _ & _ & Hb).
  exists sent. split; [exact E|]. split; [exact Hb|].
  unfold decide, store in E. simpl in E. injection E as <-. reflexivity.
Defined.

End ClientProps.
